(** * RedProject chat demos: a shallow embedding and its verified properties

    Two independent browser pages are modelled:
    - [App]   : [examples/chat-simulator/app.js] (keyword replies, scripted
                playback, a typing gate [isBotTyping]);
    - [Page]  : the second demo (preset replies, [escapeHtml], [resetChat],
                [boot]).

    JavaScript strings are sequences of UTF-16 code units, so a string is a
    [list Z] here; [length], [includes], [trim] and [replaceAll] work on code
    units exactly as the built-ins do.  Handlers are state transformers over
    an explicit record holding the script's [state] object, the part of the
    DOM the script touches, [localStorage] and the pending [setTimeout]
    continuations.  Handlers that can raise run in a small exception monad.
    The HTML of the pages is not part of the sources: the elements the
    scripts look up are taken to exist, and the message containers to start
    empty.  Scroll position, focus and the textarea height are presentation
    only and are not part of the record.  The clock and [Math.random] are
    inputs of the events that read them. *)

From Stdlib Require Import ZArith List String Ascii Bool Lia.
From stdpp Require Import base option list gmap.
Import ListNotations.

Local Open Scope Z_scope.

(** ** JavaScript strings *)

Module JS.

Abbreviation jsstring := (list Z).

(** Source literals are written as UTF-8 text and decoded once, at
    definition time, into their UTF-16 code units. *)

Fixpoint bytes (s : string) : list Z :=
  match s with
  | EmptyString => []
  | String a r => Z.of_N (N_of_ascii a) :: bytes r
  end.

Fixpoint utf8_decode (bs : list Z) : list Z :=
  match bs with
  | [] => []
  | b0 :: r0 =>
    if b0 <? 128 then b0 :: utf8_decode r0
    else match r0 with
    | [] => []
    | b1 :: r1 =>
      if b0 <? 224 then ((b0 - 192) * 64 + (b1 - 128)) :: utf8_decode r1
      else match r1 with
      | [] => []
      | b2 :: r2 =>
        if b0 <? 240
        then ((b0 - 224) * 4096 + (b1 - 128) * 64 + (b2 - 128)) :: utf8_decode r2
        else match r2 with
        | [] => []
        | b3 :: r3 =>
          ((b0 - 240) * 262144 + (b1 - 128) * 4096 + (b2 - 128) * 64 + (b3 - 128))
            :: utf8_decode r3
        end
      end
    end
  end.

Definition utf16_units (cp : Z) : jsstring :=
  if cp <? 65536 then [cp]
  else [55296 + (cp - 65536) / 1024; 56320 + (cp - 65536) mod 1024].

Definition lit (s : string) : jsstring :=
  flat_map utf16_units (utf8_decode (bytes s)).

(** The double quote cannot be written inside a literal. *)
Definition dquote : jsstring := [34].

(** [String.prototype.trim]: WhiteSpace and LineTerminator code units. *)
Definition isWhiteSpace (c : Z) : bool :=
  (c =? 9) || (c =? 10) || (c =? 11) || (c =? 12) || (c =? 13) || (c =? 32)
  || (c =? 160) || (c =? 5760) || ((8192 <=? c) && (c <=? 8202))
  || (c =? 8232) || (c =? 8233) || (c =? 8239) || (c =? 8287)
  || (c =? 12288) || (c =? 65279).

Fixpoint trimStart (s : jsstring) : jsstring :=
  match s with
  | [] => []
  | c :: r => if isWhiteSpace c then trimStart r else s
  end.

Definition trimEnd (s : jsstring) : jsstring := rev (trimStart (rev s)).

Definition trim (s : jsstring) : jsstring := trimEnd (trimStart s).

(** [s.startsWith(pat)] and [s.includes(pat)]. *)
Fixpoint startsWith (pat s : jsstring) : bool :=
  match pat, s with
  | [], _ => true
  | _ :: _, [] => false
  | p :: pat', c :: s' => (p =? c) && startsWith pat' s'
  end.

Fixpoint includes (s pat : jsstring) : bool :=
  startsWith pat s
  || match s with
     | [] => false
     | _ :: s' => includes s' pat
     end.

(** [s.replaceAll(pat, rep)] for a non-empty string pattern and a
    replacement without [$] patterns: occurrences are found left to right
    and do not overlap.  [skip] counts the code units of the occurrence
    just replaced that are still to be stepped over. *)
Fixpoint replaceAll_from (pat rep : jsstring) (skip : nat) (s : jsstring)
  : jsstring :=
  match s with
  | [] => []
  | c :: s' =>
    match skip with
    | S k => replaceAll_from pat rep k s'
    | O =>
      if startsWith pat s
      then rep ++ replaceAll_from pat rep (Nat.pred (length pat)) s'
      else c :: replaceAll_from pat rep O s'
    end
  end.

Definition replaceAll (pat rep s : jsstring) : jsstring :=
  replaceAll_from pat rep O s.

(** Exceptions that the modelled code can meet. *)
Inductive JSError := SecurityError | QuotaExceededError | TypeError.

Inductive result (A : Type) :=
  | Ok (a : A)
  | Throw (e : JSError).
Arguments Ok {A} a.
Arguments Throw {A} e.

(** A computation over a store [S] that returns or throws. The store
    changes made before a throw are kept, as in JavaScript. *)
Definition M (S A : Type) : Type := S -> result A * S.

Definition ret {S A} (a : A) : M S A := fun s => (Ok a, s).

Definition bind {S A B} (m : M S A) (f : A -> M S B) : M S B :=
  fun s =>
    match m s with
    | (Ok a, s') => f a s'
    | (Throw e, s') => (Throw e, s')
    end.

Definition modify {S} (f : S -> S) : M S unit := fun s => (Ok tt, f s).

(** [try { m } catch {}] *)
Definition try_catch {S} (m : M S unit) : M S unit :=
  fun s =>
    match m s with
    | (Ok _, s') => (Ok tt, s')
    | (Throw _, s') => (Ok tt, s')
    end.

(** ** [localStorage]

    A store that is denied raises on every access; a store whose quota
    is used up (it may be zero) raises on writes only. *)
Inductive StoreStatus := StoreOk | StoreFull | StoreDenied.

Record Storage := mkStorage {
  items : gmap jsstring jsstring;
  status : StoreStatus
}.

Definition getItem (k : jsstring) (st : Storage) : result (option jsstring) :=
  match status st with
  | StoreDenied => Throw SecurityError
  | _ => Ok (items st !! k)
  end.

Definition setItem (k v : jsstring) (st : Storage) : result unit * Storage :=
  match status st with
  | StoreOk => (Ok tt, mkStorage (<[k := v]> (items st)) StoreOk)
  | StoreFull => (Throw QuotaExceededError, st)
  | StoreDenied => (Throw SecurityError, st)
  end.

(** ** Property lookup on an object literal

    [obj[key]] finds own properties first and then the properties every
    object literal inherits from [Object.prototype]. *)
Definition objectPrototypeKeys : list jsstring :=
  Eval vm_compute in
  map lit [ "constructor"; "__proto__"; "hasOwnProperty"; "isPrototypeOf";
            "propertyIsEnumerable"; "toLocaleString"; "toString"; "valueOf";
            "__defineGetter__"; "__defineSetter__"; "__lookupGetter__";
            "__lookupSetter__" ]%string.

Inductive Lookup (A : Type) :=
  | OwnProp (a : A)
  | ProtoProp (name : jsstring)
  | Undefined.
Arguments OwnProp {A} a.
Arguments ProtoProp {A} name.
Arguments Undefined {A}.

Fixpoint ownProp {A} (own : list (jsstring * A)) (k : jsstring) : option A :=
  match own with
  | [] => None
  | (k', a) :: r => if bool_decide (k' = k) then Some a else ownProp r k
  end.

Definition getProp {A} (own : list (jsstring * A)) (k : jsstring) : Lookup A :=
  match ownProp own k with
  | Some a => OwnProp a
  | None =>
    if bool_decide (k ∈ objectPrototypeKeys) then ProtoProp k else Undefined
  end.

End JS.

Import JS.

Notation "x <- m ;; k" := (bind m (fun x => k))
  (at level 20, m at level 100, k at level 200, only parsing).
Notation "m ;;; k" := (bind m (fun _ => k))
  (at level 20, k at level 200, only parsing).


(** ** First demo: [examples/chat-simulator/app.js] *)

Module App.

Inductive Role := user | bot.

Record Step := mkStep { step_role : Role; step_text : jsstring }.

(** The [scripts] table, an object literal with three own keys. *)
Definition scripts : list (jsstring * list Step) :=
  Eval vm_compute in
  [ (lit "intro",
     [ mkStep bot (lit "สวัสดีค่ะ! ฉันคือแชทบอท ช่วยอะไรคุณได้บ้างคะ?");
       mkStep user (lit "อยากรู้ว่าฟีเจอร์มีอะไรบ้าง");
       mkStep bot (lit "เรามีการตอบอัตโนมัติ โหมดสว่าง/มืด และการพิมพ์แบบสมจริงค่ะ") ]);
    (lit "faq",
     [ mkStep user (lit "ขอช่วยตอบคำถามที่พบบ่อย");
       mkStep bot (lit "แน่นอนค่ะ! 1) เวลาทำการ 9:00-18:00 น. จ.-ศ. 2) ติดต่อทีมงานได้ทางอีเมล support@example.com") ]);
    (lit "handoff",
     [ mkStep user (lit "อยากคุยกับเจ้าหน้าที่ค่ะ");
       mkStep bot (lit "ได้เลยค่ะ กำลังโอนให้เจ้าหน้าที่ โปรดรอสักครู่...") ]) ].

(** *** The DOM built by [el] *)

#[warnings="-register-all"]
Inductive Node :=
  | Element (tag : jsstring) (attrs : list (jsstring * jsstring))
            (children : list Node)
  | TextNode (data : jsstring).

Inductive Child :=
  | ChildNode (n : Node)
  | ChildString (s : jsstring).

(** [el(tag, attrs, children)]: a child that is not a node becomes a text
    node holding [String(child)].  The calls in this file pass only string
    attributes ([class] goes to [className], the rest to [setAttribute]). *)
Definition el (tag : jsstring) (attrs : list (jsstring * jsstring))
  (children : list Child) : Node :=
  Element tag attrs
    (map (fun c => match c with
                   | ChildNode n => n
                   | ChildString s => TextNode s
                   end) children).

Definition typingDots : Node :=
  el (lit "span") [(lit "class", lit "typing"); (lit "aria-hidden", lit "true")]
    [ ChildNode (el (lit "span") [(lit "class", lit "dot")] []);
      ChildNode (el (lit "span") [(lit "class", lit "dot")] []);
      ChildNode (el (lit "span") [(lit "class", lit "dot")] []) ].

(** The element [appendMessage] builds for a message. *)
Definition messageEl (role : Role) (text time : jsstring) : Node :=
  let isUser := match role with user => true | bot => false end in
  let avatar := if isUser then lit "🙂" else lit "🤖" in
  el (lit "div")
    [(lit "class", lit "message " ++ (if isUser then lit "user" else lit "bot"))]
    [ ChildNode (el (lit "div")
        [(lit "class", lit "avatar"); (lit "aria-hidden", lit "true")]
        [ChildString avatar]);
      ChildNode (el (lit "div") [(lit "class", lit "content")]
        [ ChildNode (el (lit "div") [(lit "class", lit "bubble")]
                       [ChildString text]);
          ChildNode (el (lit "div") [(lit "class", lit "meta")]
            [ChildString ((if isUser then lit "คุณ" else lit "บอท")
                           ++ lit " • " ++ time)]) ]) ].

(** The element [appendTyping] builds. *)
Definition typingEl (time : jsstring) : Node :=
  el (lit "div") [(lit "class", lit "message bot typing-row")]
    [ ChildNode (el (lit "div")
        [(lit "class", lit "avatar"); (lit "aria-hidden", lit "true")]
        [ChildString (lit "🤖")]);
      ChildNode (el (lit "div") [(lit "class", lit "content")]
        [ ChildNode (el (lit "div") [(lit "class", lit "bubble")]
                       [ChildNode typingDots]);
          ChildNode (el (lit "div") [(lit "class", lit "meta")]
            [ChildString (lit "บอท • " ++ time)]) ]) ].

(** A child of [#chat].  A row stands for the element built from it by
    [render]; a typing row carries the identity of its node, which
    [typingEl.remove()] needs. *)
Inductive Row :=
  | MessageRow (role : Role) (text time : jsstring)
  | TypingRow (id : nat) (time : jsstring).

Definition render (r : Row) : Node :=
  match r with
  | MessageRow role text time => messageEl role text time
  | TypingRow _ time => typingEl time
  end.

(** *** The state *)

Record HistoryEntry := mkEntry {
  entry_role : Role;
  entry_text : jsstring;
  entry_t : Z
}.

(** A [setTimeout] scheduled by [botReply]: the typing node to remove, the
    reply to show, the delay, and the script steps the awaiting click
    handler still has to play (none for a reply nobody awaits). *)
Record Pending := mkPending {
  pending_typing : nat;
  pending_text : jsstring;
  pending_delay : Z;
  pending_steps : list Step
}.

Record State := mkState {
  theme : jsstring;             (* state.theme *)
  history : list HistoryEntry;  (* state.history *)
  isBotTyping : bool;           (* state.isBotTyping *)
  rootLight : bool;             (* documentElement has class 'light' *)
  chat : list Row;              (* children of #chat *)
  messageValue : jsstring;      (* #message input value *)
  storage : Storage;            (* localStorage *)
  timers : list Pending;        (* scheduled timeouts *)
  nextNode : nat                (* identity of the next created node *)
}.

Definition set_theme (v : jsstring) (s : State) : State :=
  mkState v (history s) (isBotTyping s) (rootLight s) (chat s)
    (messageValue s) (storage s) (timers s) (nextNode s).
Definition set_history (v : list HistoryEntry) (s : State) : State :=
  mkState (theme s) v (isBotTyping s) (rootLight s) (chat s)
    (messageValue s) (storage s) (timers s) (nextNode s).
Definition set_isBotTyping (v : bool) (s : State) : State :=
  mkState (theme s) (history s) v (rootLight s) (chat s)
    (messageValue s) (storage s) (timers s) (nextNode s).
Definition set_rootLight (v : bool) (s : State) : State :=
  mkState (theme s) (history s) (isBotTyping s) v (chat s)
    (messageValue s) (storage s) (timers s) (nextNode s).
Definition set_chat (v : list Row) (s : State) : State :=
  mkState (theme s) (history s) (isBotTyping s) (rootLight s) v
    (messageValue s) (storage s) (timers s) (nextNode s).
Definition set_messageValue (v : jsstring) (s : State) : State :=
  mkState (theme s) (history s) (isBotTyping s) (rootLight s) (chat s)
    v (storage s) (timers s) (nextNode s).
Definition set_storage (v : Storage) (s : State) : State :=
  mkState (theme s) (history s) (isBotTyping s) (rootLight s) (chat s)
    (messageValue s) v (timers s) (nextNode s).
Definition set_timers (v : list Pending) (s : State) : State :=
  mkState (theme s) (history s) (isBotTyping s) (rootLight s) (chat s)
    (messageValue s) (storage s) v (nextNode s).
Definition set_nextNode (v : nat) (s : State) : State :=
  mkState (theme s) (history s) (isBotTyping s) (rootLight s) (chat s)
    (messageValue s) (storage s) (timers s) v.

Definition s_dark : jsstring := Eval vm_compute in lit "dark".
Definition s_light : jsstring := Eval vm_compute in lit "light".
Definition s_theme : jsstring := Eval vm_compute in lit "theme".

(** *** Theme *)

Definition applyTheme (th : jsstring) : M State unit :=
  modify (set_rootLight (bool_decide (th = s_light)));;;
  modify (set_theme th);;;
  fun s =>
    let '(r, st) := setItem s_theme th (storage s) in
    (r, set_storage st s).

Definition toggleTheme : M State unit :=
  fun s =>
    applyTheme (if bool_decide (theme s = s_dark) then s_light else s_dark) s.

(** *** Rendering into [#chat] *)

Definition appendMessage (role : Role) (text now : jsstring) (s : State)
  : State :=
  set_chat (chat s ++ [MessageRow role text now]) s.

Definition appendTyping (now : jsstring) (s : State) : nat * State :=
  (nextNode s,
   set_nextNode (Datatypes.S (nextNode s))
     (set_chat (chat s ++ [TypingRow (nextNode s) now]) s)).

(** [node.remove()] for a typing node. *)
Definition removeNode (id : nat) (rows : list Row) : list Row :=
  List.filter (fun r => match r with
                        | TypingRow i _ => negb (Nat.eqb i id)
                        | MessageRow _ _ _ => true
                        end) rows.
Arguments removeNode : simpl never.

(** *** The reply cycle *)

(** [Math.min(2000, Math.max(600, text.length * 40))] *)
Definition replyDelay (text : jsstring) : Z :=
  Z.min 2000 (Z.max 600 (Z.of_nat (length text) * 40)).

(** What the caller of an async function sees at its first [await]:
    the promise is already resolved, or the callee is suspended on a
    timer. *)
Inductive Await := Resolved | Suspended.

(** [botReply(text)] up to its [await].  [k] is what the awaiting caller
    does once the promise resolves. *)
Definition botReply (text : jsstring) (k : list Step) (now : jsstring)
  (s : State) : Await * State :=
  if isBotTyping s then (Resolved, s)
  else
    let s1 := set_isBotTyping true s in
    let '(id, s2) := appendTyping now s1 in
    (Suspended,
     set_timers (timers s2 ++ [mkPending id text (replyDelay text) k]) s2).

(** The rest of [botReply], run when its timer fires. *)
Definition botReply_resume (p : Pending) (now : jsstring) (s : State)
  : State :=
  set_isBotTyping false
    (appendMessage bot (pending_text p) now
       (set_chat (removeNode (pending_typing p) (chat s)) s)).

(** The loop of the script button handler.  Awaiting a promise that is
    already resolved resumes in a microtask, before any other event. *)
Fixpoint playSteps (now : jsstring) (steps : list Step) (s : State) : State :=
  match steps with
  | [] => s
  | st :: rest =>
    match step_role st with
    | user => playSteps now rest (appendMessage user (step_text st) now s)
    | bot =>
      match botReply (step_text st) rest now s with
      | (Resolved, s') => playSteps now rest s'
      | (Suspended, s') => s'
      end
    end
  end.

(** [scripts[key] || []] followed by [for (const step of steps)]: an
    inherited property is truthy and not iterable. *)
Definition scriptClick (key now : jsstring) : M State unit :=
  match getProp scripts key with
  | OwnProp steps => modify (playSteps now steps)
  | ProtoProp _ => fun s => (Throw TypeError, s)
  | Undefined => modify (playSteps now [])
  end.

Inductive Pick := Pick0 | Pick1 | Pick2.

Definition kw_price1 : jsstring := Eval vm_compute in lit "ราคา".
Definition kw_price2 : jsstring := Eval vm_compute in lit "เท่าไหร่".
Definition kw_help1 : jsstring := Eval vm_compute in lit "ช่วย".
Definition kw_help2 : jsstring := Eval vm_compute in lit "อย่างไร".
Definition kw_theme1 : jsstring := Eval vm_compute in lit "มืด".
Definition kw_theme2 : jsstring := Eval vm_compute in lit "สว่าง".

Definition reply_price : jsstring :=
  Eval vm_compute in
  lit "แพ็กเกจเริ่มต้นที่ 299 บาท/เดือน และมีเวอร์ชันทดลองใช้งานฟรีค่ะ".
Definition reply_help : jsstring :=
  Eval vm_compute in
  lit "ฉันช่วยตอบคำถาม แนะนำการใช้งาน และส่งต่อให้ทีมงานได้ค่ะ".
Definition reply_theme : jsstring :=
  Eval vm_compute in lit "สลับธีมให้แล้วค่ะ ✨".

Definition fallbacks (p : Pick) : jsstring :=
  Eval vm_compute in
  match p with
  | Pick0 => lit "รับทราบค่ะ มีรายละเอียดเพิ่มเติมไหมคะ?"
  | Pick1 => lit "ขอข้อมูลเพิ่มอีกนิด เพื่อช่วยคุณได้ดีกว่านี้ค่ะ"
  | Pick2 => lit "โอเคค่ะ เดี๋ยวช่วยค้นหาคำตอบให้นะคะ"
  end.

Definition greeting : jsstring :=
  Eval vm_compute in lit "สวัสดีค่ะ! เริ่มคุยกับฉันได้เลย 👋".

Section Handlers.

(** [String.prototype.toLowerCase] is the host's. *)
Variable toLowerCase : jsstring -> jsstring.

(** [handleUserSend(raw)].  [now] is the clock reading of [formatTime()],
    [t] that of [Date.now()], [pick] the value of
    [Math.floor(Math.random() * fallbacks.length)].  The calls to
    [botReply] are not awaited. *)
Definition handleUserSend (raw now : jsstring) (t : Z) (pick : Pick)
  : M State unit :=
  let text := trim raw in
  if bool_decide (text = []) then ret tt
  else
    modify (appendMessage user text now);;;
    modify (fun s => set_history (history s ++ [mkEntry user text t]) s);;;
    let lower := toLowerCase text in
    if includes lower kw_price1 || includes lower kw_price2 then
      modify (fun s => snd (botReply reply_price [] now s))
    else if includes lower kw_help1 || includes lower kw_help2 then
      modify (fun s => snd (botReply reply_help [] now s))
    else if includes lower kw_theme1 || includes lower kw_theme2 then
      toggleTheme;;;
      modify (fun s => snd (botReply reply_theme [] now s))
    else
      modify (fun s => snd (botReply (fallbacks pick) [] now s)).

(** *** Events *)

Inductive Event :=
  | ThemeToggleClick
  | MessageInput (v : jsstring)
  | ComposerSubmit (now : jsstring) (t : Z) (pick : Pick)
  | ScriptClick (key now : jsstring)
  | TimerFire (k : nat) (now : jsstring)
  | StorageChange (st : Storage).

(** The submit listener: [handleUserSend] is async, so a throw inside it
    rejects its promise and the listener still clears the input. *)
Definition composerSubmit (now : jsstring) (t : Z) (pick : Pick)
  : M State unit :=
  fun s =>
    let '(r, s') := handleUserSend (messageValue s) now t pick s in
    (r, set_messageValue [] s').

(** The timer callback of the [k]-th scheduled timeout. *)
Definition timerFire (k : nat) (now : jsstring) (s : State) : State :=
  match timers s !! k with
  | None => s
  | Some p =>
    playSteps now (pending_steps p)
      (botReply_resume p now (set_timers (delete k (timers s)) s))
  end.

(** One task of the event loop; the result tells whether an exception or
    a rejection escaped the handler. *)
Definition step (e : Event) : M State unit :=
  match e with
  | ThemeToggleClick => toggleTheme
  | MessageInput v => modify (set_messageValue v)
  | ComposerSubmit now t pick => composerSubmit now t pick
  | ScriptClick key now => scriptClick key now
  | TimerFire k now => modify (timerFire k now)
  | StorageChange st => modify (set_storage st)
  end.

Fixpoint run (es : list Event) (s : State) : State :=
  match es with
  | [] => s
  | e :: es' => run es' (snd (step e s))
  end.

(** Loading the script evaluates the [state] literal; [init] runs on
    [DOMContentLoaded].  [#chat] starts without children.  The page is
    live only if neither raised. *)
Definition load (st : Storage) : result State :=
  match getItem s_theme st with
  | Throw e => Throw e
  | Ok v =>
    let th := match v with
              | Some (c :: r) => c :: r
              | _ => s_dark
              end in
    Ok (mkState th [] false false [] [] st [] O)
  end.

Definition init (now : jsstring) : M State unit :=
  (fun s => applyTheme (theme s) s);;;
  modify (appendMessage bot greeting now).

Definition start (st : Storage) (now : jsstring) : option State :=
  match load st with
  | Throw _ => None
  | Ok s0 =>
    match init now s0 with
    | (Ok _, s1) => Some s1
    | (Throw _, _) => None
    end
  end.

Definition reachable (s : State) : Prop :=
  exists st now es s0, start st now = Some s0 /\ run es s0 = s.

End Handlers.

(** Scripted playback as the event loop runs it: the task of the click,
    [step (ScriptClick key now)], then the task of the scheduled timer,
    [step (TimerFire 0 n)], once per entry of [nows].  The result lists
    the state after each task. *)
Fixpoint fireAll (nows : list jsstring) (s : State) : list State :=
  match nows with
  | [] => []
  | n :: ns => timerFire O n s :: fireAll ns (timerFire O n s)
  end.

Definition playback (key now : jsstring) (nows : list jsstring) (s : State)
  : list State :=
  let s1 := snd (scriptClick key now s) in
  s1 :: fireAll nows s1.

(** Whether [localStorage] accepts writes. *)
Definition status_ok (s : State) : bool :=
  match status (storage s) with
  | StoreOk => true
  | _ => false
  end.

(** The state once [handleUserSend] has shown and recorded the user's
    message, before it picks a reply. *)
Definition userMessageSent (text now : jsstring) (t : Z) (s : State) : State :=
  set_history (history s ++ [mkEntry user text t])
    (appendMessage user text now s).

(** *** What is on display *)

Inductive Visual :=
  | VMessage (role : Role) (text : jsstring)
  | VTyping.

Definition visual (r : Row) : Visual :=
  match r with
  | MessageRow role text _ => VMessage role text
  | TypingRow _ _ => VTyping
  end.

Definition visuals (s : State) : list Visual := map visual (chat s).

Definition shown (st : Step) : Visual :=
  VMessage (step_role st) (step_text st).

Fixpoint typingIds (rows : list Row) : list nat :=
  match rows with
  | [] => []
  | TypingRow i _ :: r => i :: typingIds r
  | MessageRow _ _ _ :: r => typingIds r
  end.

Definition typingCount (rows : list Row) : nat := length (typingIds rows).

Definition botTurns (steps : list Step) : nat :=
  length (List.filter (fun st => match step_role st with
                                 | bot => true
                                 | user => false
                                 end) steps).

(** One reply cycle at most: while [isBotTyping] holds there is exactly
    one scheduled timeout and its typing node is the only one in [#chat];
    otherwise there is neither. *)
Definition cycleInv (s : State) : Prop :=
  if isBotTyping s
  then exists p, timers s = [p] /\ typingIds (chat s) = [pending_typing p]
  else timers s = [] /\ typingIds (chat s) = [].

(** What scripted playback is to display after each task, starting from
    the display [base]: a user turn is shown within the task, a bot turn
    ends the task with the typing indicator last and is shown by the
    next one. *)
Fixpoint expectedDisplays (base : list Visual) (steps : list Step)
  : list (list Visual) :=
  match steps with
  | [] => [base]
  | st :: rest =>
    match step_role st with
    | user => expectedDisplays (base ++ [shown st]) rest
    | bot => (base ++ [VTyping]) :: expectedDisplays (base ++ [shown st]) rest
    end
  end.

(** The rows the user turns of a script make when they are appended at
    [now]. *)
Definition userTurnRows (now : jsstring) (steps : list Step) : list Row :=
  flat_map (fun st => match step_role st with
                      | user => [MessageRow user (step_text st) now]
                      | bot => []
                      end) steps.

Definition userOnly (h : list HistoryEntry) : Prop :=
  Forall (fun e => entry_role e = user) h.

(** The tree with the data of every text node erased. *)
Fixpoint shape (n : Node) : Node :=
  match n with
  | Element tag attrs children => Element tag attrs (map shape children)
  | TextNode _ => TextNode []
  end.

(** The children of the bubble of a row element. *)
Definition bubbleOf (n : Node) : option (list Node) :=
  match n with
  | Element _ _ [_; Element _ _ (Element _ _ cs :: _)] => Some cs
  | _ => None
  end.

(** *** Further observations of the display and the theme *)

(** The message rows of a display, typing rows left out. *)
Definition messageRows (rows : list Row) : list Row :=
  List.filter (fun r => match r with
                        | MessageRow _ _ _ => true
                        | TypingRow _ _ => false
                        end) rows.

(** The texts of the user's messages on display, in order. *)
Fixpoint userTexts (rows : list Row) : list jsstring :=
  match rows with
  | [] => []
  | MessageRow user text _ :: r => text :: userTexts r
  | _ :: r => userTexts r
  end.

(** Every text the file gives the bot to say: the greeting, the three
    keyword replies, the fallback pool and the bot turns of the scripts. *)
Definition botTexts : list jsstring :=
  greeting :: reply_price :: reply_help :: reply_theme
    :: fallbacks Pick0 :: fallbacks Pick1 :: fallbacks Pick2
    :: flat_map (fun e =>
                   map step_text
                     (List.filter (fun st => match step_role st with
                                             | bot => true
                                             | user => false
                                             end) (snd e))) scripts.

Definition cannedRow (r : Row) : bool :=
  match r with
  | MessageRow bot text _ => bool_decide (text ∈ botTexts)
  | _ => true
  end.

Definition cannedStep (st : Step) : bool :=
  match step_role st with
  | bot => bool_decide (step_text st ∈ botTexts)
  | user => true
  end.

Definition cannedPending (p : Pending) : bool :=
  bool_decide (pending_text p ∈ botTexts)
  && forallb cannedStep (pending_steps p).

(** The recorded texts are on display, in order, and each is non-empty
    and trimmed. *)
Definition historyOk (s : State) : Prop :=
  map entry_text (history s) `sublist_of` userTexts (chat s)
  /\ Forall (fun e => entry_text e <> [] /\ trim (entry_text e) = entry_text e)
            (history s).

(** Every bot message on display, and everything scheduled, comes from
    [botTexts]. *)
Definition cannedInv (s : State) : Prop :=
  forallb cannedRow (chat s) = true
  /\ forallb cannedPending (timers s) = true.

(** The class of the root element agrees with [state.theme]. *)
Definition themeSync (s : State) : Prop :=
  rootLight s = bool_decide (theme s = s_light).

(** The theme [toggleTheme] moves to. *)
Definition otherTheme (th : jsstring) : jsstring :=
  if bool_decide (th = s_dark) then s_light else s_dark.

End App.

(** ** Second demo: preset replies *)

Module Page.

Inductive Role := user | bot.

Definition roleName (r : Role) : jsstring :=
  Eval vm_compute in
  match r with
  | user => lit "user"
  | bot => lit "bot"
  end.

(** Values that a looked-up "behavior" can return. *)
Inductive Value :=
  | VString (s : jsstring)
  | VStringObject (s : jsstring)
  | VBool (b : bool).

Definition s_true : jsstring := Eval vm_compute in lit "true".
Definition s_false : jsstring := Eval vm_compute in lit "false".

(** [String(v)] *)
Definition toString (v : Value) : jsstring :=
  match v with
  | VString s => s
  | VStringObject s => s
  | VBool true => s_true
  | VBool false => s_false
  end.

Definition nl : jsstring := [10].

Definition friendly_pre : jsstring := Eval vm_compute in lit "ได้เลยครับ 😊  ".
Definition friendly_post : jsstring :=
  Eval vm_compute in
  nl ++ lit "นี่คือคำตอบแบบเป็นกันเองและช่วยเหลือกันสุดๆ!".
Definition professional_pre : jsstring :=
  Eval vm_compute in
  lit "รับทราบครับ ผมจะช่วยอธิบายอย่างเป็นขั้นตอน:" ++ nl ++ lit "- ประเด็น: ".
Definition professional_post : jsstring :=
  Eval vm_compute in
  nl ++ lit "- ทางเลือก: A/B" ++ nl
     ++ lit "- คำแนะนำ: เลือกที่สอดคล้องกับเป้าหมาย".
Definition concise_post : jsstring :=
  Eval vm_compute in lit " -> สรุป: ใช้ทางเลือกที่ง่ายและชัดเจนที่สุด".
Definition helper_pre : jsstring :=
  Eval vm_compute in lit "ถ้าคุณสนใจสินค้าเกี่ยวกับ " ++ dquote.
Definition helper_post : jsstring :=
  Eval vm_compute in
  dquote ++ lit " ผมแนะนำรุ่น Pro ช่วยประหยัดเวลาและใช้งานง่ายกว่าเดิมครับ".

Definition friendly (text : jsstring) : jsstring :=
  friendly_pre ++ text ++ friendly_post.
Definition professional (text : jsstring) : jsstring :=
  professional_pre ++ text ++ professional_post.
Definition concise (text : jsstring) : jsstring := text ++ concise_post.
Definition helper (text : jsstring) : jsstring :=
  helper_pre ++ text ++ helper_post.

Definition s_friendly : jsstring := Eval vm_compute in lit "friendly".
Definition s_professional : jsstring :=
  Eval vm_compute in lit "professional".
Definition s_concise : jsstring := Eval vm_compute in lit "concise".
Definition s_helper : jsstring := Eval vm_compute in lit "helper".
Definition s_objectUndefined : jsstring :=
  Eval vm_compute in lit "[object Undefined]".
Definition s_constructor : jsstring := Eval vm_compute in lit "constructor".
Definition s_toString : jsstring := Eval vm_compute in lit "toString".
Definition s_isPrototypeOf : jsstring :=
  Eval vm_compute in lit "isPrototypeOf".
Definition label_light : jsstring := Eval vm_compute in lit "โหมดสว่าง".
Definition label_dark : jsstring := Eval vm_compute in lit "โหมดมืด".
Definition welcome : jsstring :=
  Eval vm_compute in
  lit "สวัสดีครับ ยินดีต้อนรับสู่หน้าเว็บจำลองการสนทนา! ลองพิมพ์ข้อความเพื่อเริ่มต้นได้เลย 🎉".
Definition s_dark : jsstring := Eval vm_compute in lit "dark".
Definition s_light : jsstring := Eval vm_compute in lit "light".
Definition s_chat_theme : jsstring := Eval vm_compute in lit "chat_theme".
Definition s_chat_preset : jsstring := Eval vm_compute in lit "chat_preset".

(** The [PRESET_BEHAVIORS] table, an object literal with four own keys. *)
Definition PRESET_BEHAVIORS : list (jsstring * (jsstring -> jsstring)) :=
  [ (s_friendly, friendly);
    (s_professional, professional);
    (s_concise, concise);
    (s_helper, helper) ].

(** Calling a property inherited from [Object.prototype] as a plain
    function (its [this] is [undefined]) on a string argument:
    [Object(text)] wraps the string, [toString] and [isPrototypeOf] answer
    without looking at the argument, [__proto__] is not callable and the
    other methods fail converting [this] to an object. *)
Definition callInherited (name arg : jsstring) : result Value :=
  if bool_decide (name = s_constructor) then Ok (VStringObject arg)
  else if bool_decide (name = s_toString)
       then Ok (VString s_objectUndefined)
  else if bool_decide (name = s_isPrototypeOf) then Ok (VBool false)
  else Throw TypeError.

(** [(PRESET_BEHAVIORS[preset] || PRESET_BEHAVIORS.friendly)(userText)] *)
Definition behaviorReply (preset userText : jsstring) : result Value :=
  match getProp PRESET_BEHAVIORS preset with
  | OwnProp f => Ok (VString (f userText))
  | ProtoProp name => callInherited name userText
  | Undefined => Ok (VString (friendly userText))
  end.

(** *** Rendering *)

Definition amp : Z := 38.
Definition lt : Z := 60.
Definition gt : Z := 62.

Definition escapeHtml (text : jsstring) : jsstring :=
  replaceAll [gt] (lit "&gt;")
    (replaceAll [lt] (lit "&lt;")
       (replaceAll [amp] (lit "&amp;") text)).

Record Element := mkElement {
  className : jsstring;
  innerHTML : jsstring
}.

Definition attr (v : string) : jsstring := dquote ++ lit v ++ dquote.

(** The markup around the escaped text in [createMessageEl]. *)
Definition markup_before (role : Role) : jsstring :=
  nl ++ lit "    <div class=" ++ attr "avatar" ++ lit ">"
     ++ (match role with user => lit "👤" | bot => lit "🤖" end)
     ++ lit "</div>" ++ nl
     ++ lit "    <div>" ++ nl
     ++ lit "      <div class=" ++ attr "bubble" ++ lit ">".

Definition markup_after (role : Role) (time : jsstring) : jsstring :=
  lit "</div>" ++ nl
     ++ lit "      <div class=" ++ attr "meta" ++ lit ">"
     ++ (match role with user => lit "คุณ" | bot => lit "แชทบอท" end)
     ++ lit " · " ++ time ++ lit "</div>" ++ nl
     ++ lit "    </div>" ++ nl ++ lit "  ".

(** [createMessageEl({ role, content, time })]; [now] is what
    [formatTime()] reads when [time] is missing. *)
Definition createMessageEl (role : Role) (content : Value)
  (time : option jsstring) (now : jsstring) : Element :=
  let safe := escapeHtml (toString content) in
  mkElement (lit "msg " ++ roleName role)
    (markup_before role ++ safe
       ++ markup_after role (match time with Some t => t | None => now end)).

Definition createTypingEl : Element :=
  mkElement (lit "msg bot")
    (nl ++ lit "    <div class=" ++ attr "avatar" ++ lit ">🤖</div>" ++ nl
        ++ lit "    <div>" ++ nl
        ++ lit "      <div class=" ++ attr "bubble" ++ lit "><span class="
        ++ attr "typing" ++ lit "><span class=" ++ attr "dotty"
        ++ lit "></span><span class=" ++ attr "dotty"
        ++ lit "></span><span class=" ++ attr "dotty"
        ++ lit "></span></span></div>" ++ nl
        ++ lit "      <div class=" ++ attr "meta" ++ lit ">กำลังพิมพ์…</div>" ++ nl
        ++ lit "    </div>" ++ nl ++ lit "  ").

(** A child of [#messages]; a typing row carries its node identity. *)
Inductive Row :=
  | MessageRow (role : Role) (content : Value) (time : jsstring)
  | TypingRow (id : nat).

Definition render (r : Row) : Element :=
  match r with
  | MessageRow role content time => createMessageEl role content (Some time) time
  | TypingRow _ => createTypingEl
  end.

(** *** The state *)

Record Message := mkMessage {
  msg_role : Role;
  msg_content : jsstring;
  msg_time : jsstring
}.

(** A scheduled timeout of [simulateBotReply]: the typing delay, after
    which the reply replaces the typing node, or the 50 ms pause before
    the last scroll. *)
Inductive Pending :=
  | ReplyTimer (typing : nat) (userText : jsstring) (delay : Z)
  | ScrollTimer.

Record State := mkState {
  preset : jsstring;                     (* state.preset *)
  theme : jsstring;                      (* state.theme *)
  messages : list Message;               (* state.messages *)
  bodyLight : bool;                      (* body has class 'light' *)
  themeSwitch : bool;                    (* #themeSwitch.checked *)
  themeLabel : jsstring;                 (* #themeLabel.textContent *)
  presetButtons : list (jsstring * bool);(* .preset: data-preset, 'active' *)
  messagesEl : list Row;                 (* children of #messages *)
  messageInput : jsstring;               (* #messageInput value *)
  storage : Storage;                     (* localStorage *)
  timers : list Pending;                 (* scheduled timeouts *)
  nextNode : nat                         (* identity of the next typing node *)
}.

Definition set_preset (v : jsstring) (s : State) : State :=
  mkState v (theme s) (messages s) (bodyLight s) (themeSwitch s)
    (themeLabel s) (presetButtons s) (messagesEl s) (messageInput s)
    (storage s) (timers s) (nextNode s).
Definition set_theme (v : jsstring) (s : State) : State :=
  mkState (preset s) v (messages s) (bodyLight s) (themeSwitch s)
    (themeLabel s) (presetButtons s) (messagesEl s) (messageInput s)
    (storage s) (timers s) (nextNode s).
Definition set_messages (v : list Message) (s : State) : State :=
  mkState (preset s) (theme s) v (bodyLight s) (themeSwitch s)
    (themeLabel s) (presetButtons s) (messagesEl s) (messageInput s)
    (storage s) (timers s) (nextNode s).
Definition set_themeUI (light : bool) (label : jsstring) (s : State) : State :=
  mkState (preset s) (theme s) (messages s) light light
    label (presetButtons s) (messagesEl s) (messageInput s)
    (storage s) (timers s) (nextNode s).
Definition set_presetButtons (v : list (jsstring * bool)) (s : State) : State :=
  mkState (preset s) (theme s) (messages s) (bodyLight s) (themeSwitch s)
    (themeLabel s) v (messagesEl s) (messageInput s)
    (storage s) (timers s) (nextNode s).
Definition set_messagesEl (v : list Row) (s : State) : State :=
  mkState (preset s) (theme s) (messages s) (bodyLight s) (themeSwitch s)
    (themeLabel s) (presetButtons s) v (messageInput s)
    (storage s) (timers s) (nextNode s).
Definition set_messageInput (v : jsstring) (s : State) : State :=
  mkState (preset s) (theme s) (messages s) (bodyLight s) (themeSwitch s)
    (themeLabel s) (presetButtons s) (messagesEl s) v
    (storage s) (timers s) (nextNode s).
Definition set_storage (v : Storage) (s : State) : State :=
  mkState (preset s) (theme s) (messages s) (bodyLight s) (themeSwitch s)
    (themeLabel s) (presetButtons s) (messagesEl s) (messageInput s)
    v (timers s) (nextNode s).
Definition set_timers (v : list Pending) (s : State) : State :=
  mkState (preset s) (theme s) (messages s) (bodyLight s) (themeSwitch s)
    (themeLabel s) (presetButtons s) (messagesEl s) (messageInput s)
    (storage s) v (nextNode s).
Definition set_nextNode (v : nat) (s : State) : State :=
  mkState (preset s) (theme s) (messages s) (bodyLight s) (themeSwitch s)
    (themeLabel s) (presetButtons s) (messagesEl s) (messageInput s)
    (storage s) (timers s) v.

(** [localStorage.setItem(k, v)] on the page's store. *)
Definition store (k v : jsstring) : M State unit :=
  fun s =>
    let '(r, st) := setItem k v (storage s) in
    (r, set_storage st s).

(** *** Theme and preset *)

Definition setTheme (th : jsstring) : M State unit :=
  let isLight := bool_decide (th = s_light) in
  modify (set_theme (if isLight then s_light else s_dark));;;
  modify (set_themeUI isLight
            (if isLight then label_light else label_dark));;;
  try_catch (fun s => store s_chat_theme (theme s) s).

Definition setPreset (p : jsstring) : M State unit :=
  modify (set_preset p);;;
  modify (fun s =>
            set_presetButtons
              (map (fun b => (fst b, bool_decide (fst b = p)))
                   (presetButtons s)) s);;;
  try_catch (fun s => store s_chat_preset (preset s) s).

Definition resetChat (s : State) : State :=
  set_messagesEl [] (set_messages [] s).

(** *** The reply cycle *)

(** [simulateBotReply(userText)] up to its first [await]; [rnd] is the
    value of [Math.floor(Math.random() * (max - min + 1))]. *)
Definition simulateBotReply (userText : jsstring) (rnd : Z) (s : State)
  : State :=
  let id := nextNode s in
  let s1 := set_nextNode (Datatypes.S id)
              (set_messagesEl (messagesEl s ++ [TypingRow id]) s) in
  set_timers (timers s1 ++ [ReplyTimer id userText (rnd + 500)]) s1.

(** [typing.replaceWith(el)]: in place when the node is still a child of
    [#messages], nothing otherwise. *)
Fixpoint replaceNode (id : nat) (new : Row) (rows : list Row) : list Row :=
  match rows with
  | [] => []
  | TypingRow i :: r =>
    if Nat.eqb i id then new :: r else TypingRow i :: replaceNode id new r
  | m :: r => m :: replaceNode id new r
  end.

(** [simulateBotReply] after the typing delay. *)
Definition simulateBotReply_resume (typing : nat) (userText now : jsstring)
  : M State unit :=
  fun s =>
    match behaviorReply (preset s) userText with
    | Throw e => (Throw e, s)
    | Ok reply =>
      let s1 := set_messagesEl
                  (replaceNode typing (MessageRow bot reply now) (messagesEl s))
                  s in
      (Ok tt, set_timers (timers s1 ++ [ScrollTimer]) s1)
    end.

(** *** Events *)

Inductive Event :=
  | MessageInput (v : jsstring)
  | ComposerSubmit (now : jsstring) (rnd : Z)
  | NewChatClick
  | PresetClick (p : jsstring)
  | ThemeSwitchChange (checked : bool)
  | TimerFire (k : nat) (now : jsstring)
  | StorageChange (st : Storage).

(** The submit listener of [#composer]. *)
Definition composerSubmit (now : jsstring) (rnd : Z) (s : State) : State :=
  let text := trim (messageInput s) in
  if bool_decide (text = []) then s
  else
    let s1 := set_messagesEl
                (messagesEl s ++ [MessageRow user (VString text) now]) s in
    let s2 := set_messageInput [] s1 in
    simulateBotReply text rnd s2.

Definition timerFire (k : nat) (now : jsstring) : M State unit :=
  fun s =>
    match timers s !! k with
    | None => (Ok tt, s)
    | Some p =>
      let s1 := set_timers (delete k (timers s)) s in
      match p with
      | ReplyTimer typing userText _ =>
        simulateBotReply_resume typing userText now s1
      | ScrollTimer => (Ok tt, s1)
      end
    end.

Definition step (e : Event) : M State unit :=
  match e with
  | MessageInput v => modify (set_messageInput v)
  | ComposerSubmit now rnd => modify (composerSubmit now rnd)
  | NewChatClick => modify resetChat
  | PresetClick p => setPreset p
  | ThemeSwitchChange checked => setTheme (if checked then s_light else s_dark)
  | TimerFire k now => timerFire k now
  | StorageChange st => modify (set_storage st)
  end.

Fixpoint run (es : list Event) (s : State) : State :=
  match es with
  | [] => s
  | e :: es' => run es' (snd (step e s))
  end.

(** The [try] block of [boot]: the saved theme and preset, each replaced
    by its default when missing or empty; a failed read leaves the
    defaults not yet overwritten. *)
Definition restore (st : Storage) : jsstring * jsstring :=
  match getItem s_chat_theme st with
  | Throw _ => (s_dark, s_friendly)
  | Ok t =>
    let savedTheme := match t with
                      | Some (c :: r) => c :: r
                      | _ => s_dark
                      end in
    match getItem s_chat_preset st with
    | Throw _ => (savedTheme, s_friendly)
    | Ok p =>
      (savedTheme, match p with
                   | Some (c :: r) => c :: r
                   | _ => s_friendly
                   end)
    end
  end.

(** [boot()] *)
Definition boot (now : jsstring) : M State unit :=
  fun s =>
    let saved := restore (storage s) in
    (setTheme (fst saved);;;
     setPreset (snd saved);;;
     modify (fun s' =>
       set_messagesEl
         (messagesEl s' ++ [MessageRow bot (VString welcome) now]) s')) s.

(** The page as the script finds it on [DOMContentLoaded]: the [state]
    literal, an empty [#messages] and [#messageInput], and the preset
    buttons of the document, whose [data-preset] values are [btns]. *)
Definition initial (st : Storage) (btns : list jsstring) : State :=
  mkState s_friendly s_dark [] false false [] (map (fun b => (b, false)) btns)
    [] [] st [] O.

Definition start (st : Storage) (btns : list jsstring) (now : jsstring)
  : result unit * State :=
  boot now (initial st btns).

Definition reachable (s : State) : Prop :=
  exists st btns now es, run es (snd (start st btns now)) = s.

(** *** What is on display *)

Fixpoint typingCount (rows : list Row) : nat :=
  match rows with
  | [] => O
  | TypingRow _ :: r => Datatypes.S (typingCount r)
  | MessageRow _ _ _ :: r => typingCount r
  end.

(** What [escapeHtml] does to one code unit. *)
Definition escapeUnit (c : Z) : jsstring :=
  if c =? amp then lit "&amp;"
  else if c =? lt then lit "&lt;"
  else if c =? gt then lit "&gt;"
  else [c].

(** No [<] or [>], and every [&] starts one of the three entities. *)
Fixpoint noRawMarkup (s : jsstring) : bool :=
  match s with
  | [] => true
  | c :: r =>
    if (c =? lt) || (c =? gt) then false
    else if c =? amp
    then (startsWith (lit "amp;") r || startsWith (lit "lt;") r
          || startsWith (lit "gt;") r) && noRawMarkup r
    else noRawMarkup r
  end.

(** *** Further observations *)

Fixpoint typingIds (rows : list Row) : list nat :=
  match rows with
  | [] => []
  | TypingRow i :: r => i :: typingIds r
  | MessageRow _ _ _ :: r => typingIds r
  end.

(** Reading the three entities of [escapeHtml] back; [skip] counts the
    code units of the entity just read that are still to be stepped
    over.  It serves to show that escaping loses nothing. *)
Fixpoint unescape_from (skip : nat) (s : jsstring) : jsstring :=
  match s with
  | [] => []
  | c :: r =>
    match skip with
    | S k => unescape_from k r
    | O =>
      if (c =? amp) && startsWith [97; 109; 112; 59] r
      then amp :: unescape_from 4 r
      else if (c =? amp) && startsWith [108; 116; 59] r
      then lt :: unescape_from 3 r
      else if (c =? amp) && startsWith [103; 116; 59] r
      then gt :: unescape_from 3 r
      else c :: unescape_from O r
    end
  end.

Definition isSpecial (c : Z) : bool := (c =? amp) || (c =? lt) || (c =? gt).

(** Exactly the preset buttons whose [data-preset] is the current preset
    are active. *)
Definition presetInSync (s : State) : Prop :=
  Forall (fun b => snd b = bool_decide (fst b = preset s)) (presetButtons s).

(** The typing nodes on display are distinct and older than the next
    node. *)
Definition typingFresh (s : State) : Prop :=
  NoDup (typingIds (messagesEl s))
  /\ Forall (fun i => (i < nextNode s)%nat) (typingIds (messagesEl s)).

(** The theme controls agree with [state.theme]. *)
Definition themeInSync (s : State) : Prop :=
  theme s = (if bodyLight s then s_light else s_dark)
  /\ themeSwitch s = bodyLight s
  /\ themeLabel s = (if bodyLight s then label_light else label_dark).

End Page.

(** ** The bookmarklet: [bookmarklet.js]

    The host page is taken to have no element with the ids the
    bookmarklet uses, so [getElementById] finds the bookmarklet's own
    nodes: the overlays in the document, in document order. *)

Module Modal.

Definition alertPrefix : jsstring :=
  Eval vm_compute in lit "ข้อความที่กรอก: ".

(** An overlay in the document: its node identity and the value of its
    textarea. *)
Record Overlay := mkOverlay {
  overlay_id : nat;
  userInputText : jsstring
}.

Record State := mkState {
  overlays : list Overlay;   (* #customModalOverlay elements of the body *)
  alerts : list jsstring;    (* the texts passed to alert, oldest first *)
  nextNode : nat             (* identity of the next created overlay *)
}.

(** The body of the bookmarklet.  The textarea of a new modal is empty;
    the two [onclick] handlers close over the new overlay. *)
Definition invoke (s : State) : State :=
  match overlays s with
  | _ :: _ => s
  | [] =>
    mkState (overlays s ++ [mkOverlay (nextNode s) []]) (alerts s)
      (S (nextNode s))
  end.

Definition inDocument (i : nat) (s : State) : bool :=
  existsb (fun o => Nat.eqb (overlay_id o) i) (overlays s).

(** [overlay.remove()] *)
Definition removeOverlay (i : nat) (s : State) : State :=
  mkState (List.filter (fun o => negb (Nat.eqb (overlay_id o) i)) (overlays s))
    (alerts s) (nextNode s).

(** The [onclick] of the submit button of overlay [i]; the button can be
    clicked only while it is in the document. *)
Definition submitClick (i : nat) (s : State) : State :=
  if inDocument i s then
    let val := trim (match overlays s with
                     | o :: _ => userInputText o
                     | [] => []
                     end) in
    let s1 := if bool_decide (val = []) then s
              else mkState (overlays s) (alerts s ++ [alertPrefix ++ val])
                     (nextNode s) in
    removeOverlay i s1
  else s.

(** The [onclick] of the cancel button of overlay [i]. *)
Definition cancelClick (i : nat) (s : State) : State :=
  if inDocument i s then removeOverlay i s else s.

(** The user edits the textarea of overlay [i]. *)
Definition textInput (i : nat) (v : jsstring) (s : State) : State :=
  mkState (map (fun o => if Nat.eqb (overlay_id o) i
                         then mkOverlay (overlay_id o) v else o)
               (overlays s))
    (alerts s) (nextNode s).

Inductive Event :=
  | Invoke
  | TextInput (i : nat) (v : jsstring)
  | SubmitClick (i : nat)
  | CancelClick (i : nat).

Definition step (e : Event) (s : State) : State :=
  match e with
  | Invoke => invoke s
  | TextInput i v => textInput i v s
  | SubmitClick i => submitClick i s
  | CancelClick i => cancelClick i s
  end.

Fixpoint run (es : list Event) (s : State) : State :=
  match es with
  | [] => s
  | e :: es' => run es' (step e s)
  end.

(** A page on which the bookmarklet has not run yet. *)
Definition initial : State := mkState [] [] O.

End Modal.


(** ** Sample sessions *)

Definition emptyStore : Storage := mkStorage ∅ StoreOk.

(** [toLowerCase] on text without cased letters. *)
Definition caseless (s : jsstring) : jsstring := s.

Definition t0 : jsstring := Eval vm_compute in lit "10:00".
Definition t1 : jsstring := Eval vm_compute in lit "10:01".
Definition t2 : jsstring := Eval vm_compute in lit "10:02".
Definition t3 : jsstring := Eval vm_compute in lit "10:03".

(** The first demo just after [init], over an empty store. *)
Definition appLive : App.State :=
  Eval vm_compute in
  App.mkState App.s_dark [] false false
    [App.MessageRow App.bot App.greeting t0] []
    (mkStorage {[ App.s_theme := App.s_dark ]} StoreOk) [] O.

Definition thanks : jsstring := Eval vm_compute in lit "ขอบคุณ".
Definition s_intro : jsstring := Eval vm_compute in lit "intro".
Definition s_faq : jsstring := Eval vm_compute in lit "faq".

(** The user sends a message that matches no keyword. *)
Definition appComposing : App.State :=
  App.run caseless
    [App.MessageInput thanks;
     App.ComposerSubmit t1 1000 App.Pick0] appLive.

(** The second demo just after [boot], over an empty store and a document
    without preset buttons. *)
Definition pageLive : Page.State :=
  Eval vm_compute in snd (Page.start emptyStore [] t0).

(** A first message is on its way in the second demo. *)
Definition pageComposing : Page.State :=
  Eval vm_compute in
  Page.run [Page.MessageInput [97]; Page.ComposerSubmit t1 0] pageLive.

(** The store of the first demo has filled up and the user has typed a
    theme keyword. *)
Definition appStoreFull : App.State :=
  App.run caseless
    [App.StorageChange (mkStorage ∅ StoreFull);
     App.MessageInput App.kw_theme1] appLive.

(** A question about the price that also asks for help and names the
    dark theme. *)
Definition priceQuestion : jsstring :=
  Eval vm_compute in lit " ราคาเท่าไหร่ ช่วยบอกหน่อย โหมดมืด ".

Definition hello : jsstring := Eval vm_compute in lit "hello".
Definition s_valueOf : jsstring := Eval vm_compute in lit "valueOf".

(** The second demo started over a store whose saved preset is the
    string [constructor]. *)
Definition presetConstructorStore : Storage :=
  mkStorage {[ Page.s_chat_preset := Page.s_constructor ]} StoreOk.

(** ** Proof automation *)

(** Reduces the field updates and projections of the first demo's state. *)
Ltac app_state :=
  cbv [App.set_theme App.set_history App.set_isBotTyping App.set_rootLight
       App.set_chat App.set_messageValue App.set_storage App.set_timers
       App.set_nextNode App.theme App.history App.isBotTyping App.rootLight
       App.chat App.messageValue App.storage App.timers App.nextNode
       App.pending_typing App.pending_text App.pending_delay
       App.pending_steps App.appendMessage App.appendTyping
       App.botReply_resume].

(** Reduces the field updates and projections of the second demo's state. *)
Ltac page_state :=
  cbv [Page.set_preset Page.set_theme Page.set_messages Page.set_themeUI
       Page.set_presetButtons Page.set_messagesEl Page.set_messageInput
       Page.set_storage Page.set_timers Page.set_nextNode Page.preset
       Page.theme Page.messages Page.bodyLight Page.themeSwitch
       Page.themeLabel Page.presetButtons Page.messagesEl Page.messageInput
       Page.storage Page.timers Page.nextNode].

(** * Verified properties *)

(** ** Strings *)

Example trim_sample : trim [32; 9; 104; 105; 32; 120; 10; 160] = [104; 105; 32; 120].
Proof. reflexivity. Qed.

Example includes_sample :
  includes (lit "abcabd") (lit "cab") = true
  /\ includes (lit "abcabd") (lit "cad") = false
  /\ includes [] [] = true.
Proof. vm_compute. repeat split; reflexivity. Qed.

Example replaceAll_sample :
  replaceAll (lit "aa") (lit "b") (lit "aaaaa a") = lit "bba a".
Proof. vm_compute. reflexivity. Qed.

Example escapeHtml_sample :
  Page.escapeHtml (lit "<b>&amp;</b>") = lit "&lt;b&gt;&amp;amp;&lt;/b&gt;".
Proof. vm_compute. reflexivity. Qed.

Example replyDelay_samples :
  App.replyDelay (lit "ok") = 600
  /\ App.replyDelay App.reply_theme = 760
  /\ App.replyDelay App.reply_price = 2000.
Proof. vm_compute. repeat split; reflexivity. Qed.

Lemma replaceAll_unit (c : Z) (rep s : jsstring) :
  replaceAll [c] rep s = flat_map (fun x => if x =? c then rep else [x]) s.
Proof.
  unfold replaceAll.
  induction s as [|x s IH]; [reflexivity|].
  cbn [replaceAll_from flat_map startsWith length Nat.pred].
  rewrite (Z.eqb_sym c x).
  destruct (x =? c); cbn [andb].
  - destruct s; cbn [startsWith]; rewrite IH; reflexivity.
  - rewrite IH. reflexivity.
Qed.

Lemma flat_map_flat_map {A B C} (f : A -> list B) (g : B -> list C) l :
  flat_map g (flat_map f l) = flat_map (fun x => flat_map g (f x)) l.
Proof.
  induction l as [|x l IH]; [reflexivity|].
  cbn [flat_map]. rewrite flat_map_app, IH. reflexivity.
Qed.

Lemma escapeHtml_units (text : jsstring) :
  Page.escapeHtml text = flat_map Page.escapeUnit text.
Proof.
  unfold Page.escapeHtml. rewrite !replaceAll_unit, !flat_map_flat_map.
  apply flat_map_ext. intros c. unfold Page.escapeUnit, Page.amp, Page.lt, Page.gt.
  destruct (Z.eqb_spec c 38) as [->|H1]; [reflexivity|].
  destruct (Z.eqb_spec c 60) as [->|H2]; [reflexivity|].
  destruct (Z.eqb_spec c 62) as [->|H3]; [reflexivity|].
  cbn [flat_map app].
  destruct (Z.eqb_spec c 60); [contradiction|].
  cbn [flat_map app].
  destruct (Z.eqb_spec c 62); [contradiction|]. reflexivity.
Qed.

Lemma noRawMarkup_escapeUnit (c : Z) (r : jsstring) :
  Page.noRawMarkup r = true ->
  Page.noRawMarkup (Page.escapeUnit c ++ r) = true.
Proof.
  intros Hr. unfold Page.escapeUnit, Page.amp, Page.lt, Page.gt.
  destruct (Z.eqb_spec c 38) as [->|H1]; [exact Hr|].
  destruct (Z.eqb_spec c 60) as [->|H2]; [exact Hr|].
  destruct (Z.eqb_spec c 62) as [->|H3]; [exact Hr|].
  cbn [app Page.noRawMarkup]. unfold Page.amp, Page.lt, Page.gt.
  destruct (Z.eqb_spec c 60); [contradiction|].
  destruct (Z.eqb_spec c 62); [contradiction|].
  destruct (Z.eqb_spec c 38); [contradiction|]. exact Hr.
Qed.

Lemma noRawMarkup_escapeHtml (text : jsstring) :
  Page.noRawMarkup (Page.escapeHtml text) = true.
Proof.
  rewrite escapeHtml_units.
  induction text as [|c r IH]; [reflexivity|].
  cbn [flat_map]. apply noRawMarkup_escapeUnit, IH.
Qed.

(** C1. Rendering a message never puts the [&], [<] or [>] of its text
    into the markup unescaped.  In the second demo the bubble of
    [createMessageEl] holds [escapeHtml] of the text between markup that
    does not depend on it; [escapeHtml] turns every [&] into [&amp;],
    every [<] into [&lt;], every [>] into [&gt;] and keeps every other
    code unit, so its result has no [<] or [>] and no [&] outside these
    entities.  In [app.js] the text is the data of a text node, the only
    child of the bubble, and the elements of the row are the same for
    every text. *)
Theorem render_escapes_message_text :
  forall (text : jsstring),
    (forall role content time now,
        Page.toString content = text ->
        Page.innerHTML (Page.createMessageEl role content time now)
        = Page.markup_before role ++ Page.escapeHtml text
            ++ Page.markup_after role
                 (match time with Some t => t | None => now end))
    /\ Page.escapeHtml text = flat_map Page.escapeUnit text
    /\ Page.noRawMarkup (Page.escapeHtml text) = true
    /\ (forall role time,
           App.bubbleOf (App.messageEl role text time)
           = Some [App.TextNode text]
           /\ App.shape (App.messageEl role text time)
              = App.shape (App.messageEl role [] [])).
Proof.
  intros text. split; [|split; [|split]].
  - intros role content time now <-. reflexivity.
  - apply escapeHtml_units.
  - apply noRawMarkup_escapeHtml.
  - intros role time. split; [reflexivity|]. destruct role; reflexivity.
Qed.

Lemma render_escapes_message_text_witness :
  Page.innerHTML
    (Page.createMessageEl Page.user (Page.VString (lit "<b>&</b>"))
       (Some (lit "10:00")) (lit "10:01"))
  = Page.markup_before Page.user ++ Page.escapeHtml (lit "<b>&</b>")
      ++ Page.markup_after Page.user (lit "10:00").
Proof.
  apply (render_escapes_message_text (lit "<b>&</b>")).
  reflexivity.
Defined.

(** C3. The typing delay of [botReply] for a reply of length L is
    max(600, min(2000, 40 L)) milliseconds, lies in [600, 2000], and is
    the delay of the timeout that [botReply] schedules. *)
Theorem reply_delay_clamped :
  forall (text : jsstring),
    let L := Z.of_nat (length text) in
    App.replyDelay text = Z.max 600 (Z.min 2000 (40 * L))
    /\ 600 <= App.replyDelay text <= 2000
    /\ forall k now s,
         App.timers (snd (App.botReply text k now (App.set_isBotTyping false s)))
         = App.timers s
             ++ [App.mkPending (App.nextNode s) text
                   (Z.max 600 (Z.min 2000 (40 * L))) k].
Proof.
  intros text L.
  assert (E : App.replyDelay text = Z.max 600 (Z.min 2000 (40 * L))).
  { unfold App.replyDelay. fold L. lia. }
  split; [exact E|]. split; [rewrite E; lia|].
  intros k now s. unfold App.botReply. cbn. rewrite E. reflexivity.
Qed.

(** ** First demo: frame and invariant lemmas *)

Lemma typingIds_app (a b : list App.Row) :
  App.typingIds (a ++ b) = App.typingIds a ++ App.typingIds b.
Proof.
  induction a as [|[r t n|i n] a IH]; cbn; [reflexivity|exact IH|].
  rewrite IH. reflexivity.
Qed.

Lemma typingIds_removeNode (id : nat) (rows : list App.Row) :
  App.typingIds (App.removeNode id rows)
  = List.filter (fun i => negb (Nat.eqb i id)) (App.typingIds rows).
Proof.
  unfold App.removeNode.
  induction rows as [|[r t n|i n] rows IH]; cbn [List.filter App.typingIds];
    [reflexivity|exact IH|].
  destruct (Nat.eqb i id); cbn [negb App.typingIds]; rewrite IH; reflexivity.
Qed.

Lemma removeNode_no_typing (id : nat) (rows : list App.Row) :
  App.typingIds rows = [] -> App.removeNode id rows = rows.
Proof.
  unfold App.removeNode.
  induction rows as [|[r t n|i n] rows IH];
    cbn [List.filter App.typingIds]; intros H;
    [reflexivity| |discriminate].
  rewrite IH; [reflexivity|exact H].
Qed.

(** [applyTheme] touches the theme, the root class and the store only. *)

Lemma applyTheme_frame (th : jsstring) (s : App.State) :
  let s' := snd (App.applyTheme th s) in
  App.chat s' = App.chat s /\ App.timers s' = App.timers s
  /\ App.isBotTyping s' = App.isBotTyping s
  /\ App.history s' = App.history s
  /\ App.nextNode s' = App.nextNode s
  /\ App.messageValue s' = App.messageValue s
  /\ App.theme s' = th.
Proof.
  unfold App.applyTheme, bind, modify. cbn.
  destruct (setItem App.s_theme th (App.storage s)) as [r st]. cbn. tauto.
Qed.

Lemma toggleTheme_frame (s : App.State) :
  let s' := snd (App.toggleTheme s) in
  App.chat s' = App.chat s /\ App.timers s' = App.timers s
  /\ App.isBotTyping s' = App.isBotTyping s
  /\ App.history s' = App.history s
  /\ App.nextNode s' = App.nextNode s
  /\ App.messageValue s' = App.messageValue s.
Proof.
  unfold App.toggleTheme.
  destruct (applyTheme_frame
              (if bool_decide (App.theme s = App.s_dark)
               then App.s_light else App.s_dark) s) as (?&?&?&?&?&?&?).
  tauto.
Qed.

(** A state that differs from one satisfying the invariant only outside
    the cycle keeps it. *)

Lemma cycleInv_frame (s s' : App.State) :
  App.chat s' = App.chat s -> App.timers s' = App.timers s ->
  App.isBotTyping s' = App.isBotTyping s ->
  App.cycleInv s -> App.cycleInv s'.
Proof. unfold App.cycleInv. intros -> -> ->. exact id. Qed.

Lemma cycleInv_appendMessage role text now s :
  App.cycleInv s -> App.cycleInv (App.appendMessage role text now s).
Proof.
  unfold App.cycleInv, App.appendMessage. cbn.
  rewrite typingIds_app. cbn. rewrite app_nil_r. exact id.
Qed.

Lemma cycleInv_botReply text k now s :
  App.cycleInv s -> App.cycleInv (snd (App.botReply text k now s)).
Proof.
  unfold App.cycleInv, App.botReply.
  destruct (App.isBotTyping s) eqn:E; cbn.
  - rewrite E. exact id.
  - intros [-> Hc]. rewrite typingIds_app, Hc. cbn. eauto.
Qed.

Lemma cycleInv_playSteps now steps :
  forall s, App.cycleInv s -> App.cycleInv (App.playSteps now steps s).
Proof.
  induction steps as [|st rest IH]; intros s Hs; cbn [App.playSteps];
    [exact Hs|].
  destruct (App.step_role st).
  - apply IH, cycleInv_appendMessage, Hs.
  - pose proof (cycleInv_botReply (App.step_text st) rest now s Hs) as Hb.
    destruct (App.botReply (App.step_text st) rest now s) as [[] s'];
      cbn in Hb; [apply IH|]; exact Hb.
Qed.

(** [handleUserSend] branch by branch. *)

Lemma cycleInv_userMessageSent text now t s :
  App.cycleInv s -> App.cycleInv (App.userMessageSent text now t s).
Proof.
  intros Hs.
  apply (cycleInv_frame (App.appendMessage App.user text now s));
    try reflexivity.
  apply cycleInv_appendMessage, Hs.
Qed.

Lemma cycleInv_timerFire k now s :
  App.cycleInv s -> App.cycleInv (App.timerFire k now s).
Proof.
  intros Hs. unfold App.timerFire.
  destruct (App.timers s !! k) as [p|] eqn:Ek; [|exact Hs].
  apply cycleInv_playSteps.
  unfold App.cycleInv in *.
  destruct (App.isBotTyping s).
  - destruct Hs as (q & Hq & Hc). rewrite Hq in *.
    destruct k as [|k]; [|destruct k; discriminate].
    injection Ek as <-. cbn.
    rewrite typingIds_app, typingIds_removeNode, Hc. cbn.
    rewrite Nat.eqb_refl. cbn. split; reflexivity.
  - destruct Hs as [Hq _]. rewrite Hq in Ek. discriminate.
Qed.

Lemma start_facts st now s0 :
  App.start st now = Some s0 ->
  App.cycleInv s0 /\ App.history s0 = [].
Proof.
  unfold App.start, App.load.
  destruct (getItem App.s_theme st) as [v|e]; [|discriminate].
  unfold App.init, bind, modify.
  match goal with
  | |- context [App.applyTheme ?th ?s] =>
      pose proof (applyTheme_frame th s) as (Hc & Ht & Hb & Hh & _);
      destruct (App.applyTheme th s) as [[[]|e] s1]
  end; [|discriminate].
  cbn [snd] in *. intros [= <-]. split.
  - apply cycleInv_appendMessage. unfold App.cycleInv.
    rewrite Hb, Ht, Hc. cbn. split; reflexivity.
  - cbn. exact Hh.
Qed.

(** The history is written by [handleUserSend] only. *)

Lemma history_botReply text k now s :
  App.history (snd (App.botReply text k now s)) = App.history s.
Proof. unfold App.botReply. destruct (App.isBotTyping s); reflexivity. Qed.

Lemma history_playSteps now steps :
  forall s, App.history (App.playSteps now steps s) = App.history s.
Proof.
  induction steps as [|st rest IH]; intros s; cbn [App.playSteps];
    [reflexivity|].
  destruct (App.step_role st).
  - rewrite IH. reflexivity.
  - pose proof (history_botReply (App.step_text st) rest now s) as Hb.
    destruct (App.botReply (App.step_text st) rest now s) as [[] s'];
      cbn [snd] in Hb; [rewrite IH|]; exact Hb.
Qed.

Lemma history_timerFire k now s :
  App.history (App.timerFire k now s) = App.history s.
Proof.
  unfold App.timerFire. destruct (App.timers s !! k); [|reflexivity].
  rewrite history_playSteps. reflexivity.
Qed.

(** *** Scripted playback from a state without a reply cycle *)

Lemma expectedDisplays_length steps :
  forall base,
    length (App.expectedDisplays base steps) = S (App.botTurns steps).
Proof.
  unfold App.botTurns.
  induction steps as [|st rest IH]; intros base; [reflexivity|].
  cbn [App.expectedDisplays List.filter]. destruct (App.step_role st).
  - apply IH.
  - cbn [length]. rewrite IH. reflexivity.
Qed.

Lemma expectedDisplays_last steps :
  forall base,
    last (App.expectedDisplays base steps)
    = Some (base ++ map App.shown steps).
Proof.
  induction steps as [|st rest IH]; intros base.
  - cbn. rewrite app_nil_r. reflexivity.
  - cbn [App.expectedDisplays map].
    assert (E : (base ++ [App.shown st]) ++ map App.shown rest
                = base ++ App.shown st :: map App.shown rest)
      by (rewrite <- app_assoc; reflexivity).
    destruct (App.step_role st).
    + rewrite IH, E. reflexivity.
    + rewrite last_cons, IH, E. reflexivity.
Qed.

Lemma expectedDisplays_head steps :
  forall base,
    exists d, App.expectedDisplays base steps !! O = Some d
              /\ base `prefix_of` d.
Proof.
  induction steps as [|st rest IH]; intros base.
  - exists base. split; reflexivity.
  - cbn [App.expectedDisplays]. destruct (App.step_role st).
    + destruct (IH (base ++ [App.shown st])) as (d & Hd & Hp).
      exists d. split; [exact Hd|].
      etransitivity; [|exact Hp]. apply prefix_app_r. reflexivity.
    + exists (base ++ [App.VTyping]). split; [reflexivity|].
      apply prefix_app_r. reflexivity.
Qed.

Lemma botTurns_cons st rest :
  App.botTurns (st :: rest)
  = match App.step_role st with
    | App.user => App.botTurns rest
    | App.bot => S (App.botTurns rest)
    end.
Proof. unfold App.botTurns. cbn. destruct (App.step_role st); reflexivity. Qed.

Lemma expectedDisplays_bot pre st post :
  App.step_role st = App.bot ->
  forall base,
    App.expectedDisplays base (pre ++ st :: post) !! App.botTurns pre
    = Some (base ++ map App.shown pre ++ [App.VTyping]).
Proof.
  intros Hst. induction pre as [|p pre IH]; intros base.
  - cbn. rewrite Hst. reflexivity.
  - rewrite botTurns_cons. cbn [app App.expectedDisplays map].
    destruct (App.step_role p); cbn [lookup list_lookup];
      rewrite IH, <- app_assoc; reflexivity.
Qed.

Lemma expectedDisplays_user pre st post :
  App.step_role st = App.user ->
  forall base,
    exists d,
      App.expectedDisplays base (pre ++ st :: post) !! App.botTurns pre
      = Some d
      /\ (base ++ map App.shown pre ++ [App.shown st]) `prefix_of` d.
Proof.
  intros Hst. induction pre as [|p pre IH]; intros base.
  - cbn [app App.expectedDisplays map]. rewrite Hst.
    apply expectedDisplays_head.
  - rewrite botTurns_cons. cbn [app App.expectedDisplays map].
    destruct (IH (base ++ [App.shown p])) as (d & Hd & Hp).
    rewrite <- app_assoc in Hp.
    destruct (App.step_role p); cbn [lookup list_lookup];
      exists d; split; assumption.
Qed.

(** A state without a reply cycle. *)
Lemma idle_of_cycleInv s :
  App.cycleInv s -> App.isBotTyping s = false ->
  App.timers s = [] /\ App.typingIds (App.chat s) = [].
Proof. unfold App.cycleInv. intros H E. rewrite E in H. exact H. Qed.

Lemma playSteps_trace steps :
  forall s now nows,
    App.isBotTyping s = false -> App.timers s = [] ->
    App.typingIds (App.chat s) = [] ->
    length nows = App.botTurns steps ->
    let s1 := App.playSteps now steps s in
    let trace := s1 :: App.fireAll nows s1 in
    map App.visuals trace = App.expectedDisplays (App.visuals s) steps
    /\ exists final, last trace = Some final
                     /\ App.isBotTyping final = false
                     /\ App.timers final = [].
Proof.
  induction steps as [|st rest IH]; intros s now nows Hb Ht Hc Hn.
  - destruct nows; [|discriminate]. cbn. split; [reflexivity|].
    exists s. auto.
  - rewrite botTurns_cons in Hn. cbn [App.playSteps App.expectedDisplays].
    destruct s as [th h b rl ch mv sto tm nn]. cbn in Hb, Ht, Hc. subst b tm.
    unfold App.shown. unfold App.visuals at 2. cbn [App.chat].
    destruct (App.step_role st).
    + specialize (IH (App.mkState th h false rl
                        (ch ++ [App.MessageRow App.user (App.step_text st) now])
                        mv sto [] nn)
                     now nows eq_refl eq_refl).
      cbn [App.chat] in IH. rewrite typingIds_app, Hc in IH.
      specialize (IH eq_refl Hn).
      unfold App.visuals at 2 in IH. cbn [App.chat] in IH.
      rewrite map_app in IH. exact IH.
    + destruct nows as [|n ns]; [discriminate|]. injection Hn as Hn.
      cbv zeta. unfold App.botReply. app_state. cbn [app App.fireAll].
      assert (Er : App.removeNode nn (ch ++ [App.TypingRow nn now]) = ch).
      { unfold App.removeNode. rewrite List.filter_app. cbn.
        rewrite Nat.eqb_refl. cbn. rewrite app_nil_r.
        apply (removeNode_no_typing nn ch Hc). }
      match goal with
      | |- context [App.timerFire O n ?x] =>
          assert (Ef : App.timerFire O n x
                       = App.playSteps n rest
                           (App.mkState th h false rl
                              (ch ++ [App.MessageRow App.bot
                                        (App.step_text st) n])
                              mv sto [] (S nn)))
      end.
      { unfold App.timerFire. app_state.
        cbn [lookup list_lookup delete list_delete]. rewrite Er.
        reflexivity. }
      rewrite Ef.
      specialize (IH (App.mkState th h false rl
                        (ch ++ [App.MessageRow App.bot (App.step_text st) n])
                        mv sto [] (S nn)) n ns eq_refl eq_refl).
      cbn [App.chat] in IH. rewrite typingIds_app, Hc in IH.
      specialize (IH eq_refl Hn). cbv zeta in IH.
      destruct IH as [IHv (final & Hl & Hf)]. split.
      * cbn [map]. f_equal.
        -- unfold App.visuals. cbn [App.chat]. rewrite map_app. reflexivity.
        -- cbn [map] in IHv. rewrite IHv. unfold App.visuals.
           cbn [App.chat]. rewrite map_app. reflexivity.
      * exists final. split; [|exact Hf]. rewrite last_cons, Hl. reflexivity.
Qed.

Section AppInvariants.

Variable toLowerCase : jsstring -> jsstring.

Lemma handleUserSend_eq raw now t pick s :
  App.handleUserSend toLowerCase raw now t pick s
  = let text := trim raw in
    if bool_decide (text = []) then (Ok tt, s)
    else
      let s1 := App.userMessageSent text now t s in
      let lower := toLowerCase text in
      if includes lower App.kw_price1 || includes lower App.kw_price2
      then (Ok tt, snd (App.botReply App.reply_price [] now s1))
      else if includes lower App.kw_help1 || includes lower App.kw_help2
      then (Ok tt, snd (App.botReply App.reply_help [] now s1))
      else if includes lower App.kw_theme1 || includes lower App.kw_theme2
      then match App.toggleTheme s1 with
           | (Ok _, s2) => (Ok tt, snd (App.botReply App.reply_theme [] now s2))
           | (Throw e, s2) => (Throw e, s2)
           end
      else (Ok tt, snd (App.botReply (App.fallbacks pick) [] now s1)).
Proof.
  unfold App.handleUserSend. cbv zeta.
  destruct (bool_decide (trim raw = [])); [reflexivity|].
  unfold bind, modify, App.userMessageSent.
  repeat match goal with
         | |- context [if ?b then _ else _] => destruct b
         end; reflexivity.
Qed.

Lemma cycleInv_handleUserSend raw now t pick s :
  App.cycleInv s ->
  App.cycleInv (snd (App.handleUserSend toLowerCase raw now t pick s)).
Proof.
  intros Hs. rewrite handleUserSend_eq. cbv zeta.
  destruct (bool_decide (trim raw = [])); [exact Hs|].
  pose proof (cycleInv_userMessageSent (trim raw) now t s Hs) as H1.
  repeat match goal with
         | |- context [if ?b then _ else _] => destruct b
         end; cbn [snd]; try (apply cycleInv_botReply, H1).
  pose proof (toggleTheme_frame (App.userMessageSent (trim raw) now t s))
    as (Hc & Ht & Hb & _).
  destruct (App.toggleTheme _) as [[[]|e] s2]; cbn [snd] in *.
  - apply cycleInv_botReply. eapply cycleInv_frame; eauto.
  - eapply cycleInv_frame; eauto.
Qed.

Lemma cycleInv_step e s :
  App.cycleInv s -> App.cycleInv (snd (App.step toLowerCase e s)).
Proof.
  intros Hs. destruct e as [|v|now t pick|key now|k now|st]; cbn [App.step].
  - pose proof (toggleTheme_frame s) as (?&?&?&_).
    eapply cycleInv_frame; eauto.
  - exact Hs.
  - unfold App.composerSubmit.
    pose proof (cycleInv_handleUserSend (App.messageValue s) now t pick s Hs)
      as H.
    destruct (App.handleUserSend _ _ _ _ _ s) as [r s']. exact H.
  - unfold App.scriptClick.
    destruct (getProp App.scripts key); cbn; try exact Hs.
    apply cycleInv_playSteps, Hs.
  - apply cycleInv_timerFire, Hs.
  - exact Hs.
Qed.

Lemma cycleInv_run es :
  forall s, App.cycleInv s -> App.cycleInv (App.run toLowerCase es s).
Proof.
  induction es as [|e es IH]; intros s Hs; cbn; [exact Hs|].
  apply IH, cycleInv_step, Hs.
Qed.

Lemma cycleInv_reachable s :
  App.reachable toLowerCase s -> App.cycleInv s.
Proof.
  intros (st & now & es & s0 & Hstart & <-).
  apply cycleInv_run. apply (start_facts _ _ _ Hstart).
Qed.

Lemma userOnly_handleUserSend raw now t pick s :
  App.userOnly (App.history s) ->
  App.userOnly
    (App.history (snd (App.handleUserSend toLowerCase raw now t pick s))).
Proof.
  intros Hs. rewrite handleUserSend_eq. cbv zeta.
  destruct (bool_decide (trim raw = [])); [exact Hs|].
  assert (H1 : App.userOnly
                 (App.history (App.userMessageSent (trim raw) now t s))).
  { unfold App.userOnly, App.userMessageSent. cbn.
    apply Forall_app. split; [exact Hs|]. repeat constructor. }
  repeat match goal with
         | |- context [if ?b then _ else _] => destruct b
         end; cbn [snd]; rewrite ?history_botReply; try exact H1.
  pose proof (toggleTheme_frame (App.userMessageSent (trim raw) now t s))
    as (_ & _ & _ & Hh & _).
  destruct (App.toggleTheme _) as [[[]|e] s2]; cbn [snd] in *;
    rewrite ?history_botReply, Hh; exact H1.
Qed.

Lemma userOnly_step e s :
  App.userOnly (App.history s) ->
  App.userOnly (App.history (snd (App.step toLowerCase e s))).
Proof.
  intros Hs. destruct e as [|v|now t pick|key now|k now|st]; cbn [App.step].
  - pose proof (toggleTheme_frame s) as (_&_&_&Hh&_). rewrite Hh. exact Hs.
  - exact Hs.
  - unfold App.composerSubmit.
    pose proof (userOnly_handleUserSend (App.messageValue s) now t pick s Hs)
      as H.
    destruct (App.handleUserSend _ _ _ _ _ s) as [r s']. exact H.
  - unfold App.scriptClick.
    destruct (getProp App.scripts key); cbn; try exact Hs.
    rewrite history_playSteps. exact Hs.
  - cbn. rewrite history_timerFire. exact Hs.
  - exact Hs.
Qed.

Lemma userOnly_run es :
  forall s, App.userOnly (App.history s) ->
            App.userOnly (App.history (App.run toLowerCase es s)).
Proof.
  induction es as [|e es IH]; intros s Hs; cbn; [exact Hs|].
  apply IH, userOnly_step, Hs.
Qed.

End AppInvariants.

Lemma appLive_start : App.start emptyStore t0 = Some appLive.
Proof. vm_compute. reflexivity. Qed.

Lemma appLive_reachable es :
  App.reachable caseless (App.run caseless es appLive).
Proof.
  exists emptyStore, t0, es, appLive. split; [apply appLive_start|reflexivity].
Qed.

Lemma pageLive_start : snd (Page.start emptyStore [] t0) = pageLive.
Proof. vm_compute. reflexivity. Qed.

Lemma pageLive_reachable es : Page.reachable (Page.run es pageLive).
Proof. exists emptyStore, [], t0, es. rewrite pageLive_start. reflexivity. Qed.

Lemma pageLive_reachable_now : Page.reachable pageLive.
Proof. exact (pageLive_reachable []). Qed.

(** C2, as the code has it.  In [app.js] the gate [isBotTyping] keeps one
    reply cycle at most: in every reachable state the number of typing
    indicators in [#chat] is 1 while [isBotTyping] holds and 0 otherwise,
    and [botReply] called while it holds returns at once and leaves the
    state as it is (nothing is appended, nothing is scheduled).  The
    second demo has no gate: every [simulateBotReply] adds an indicator
    to those already shown. *)
Theorem typing_indicator_gate :
  forall (toLowerCase : jsstring -> jsstring),
    (forall s, App.reachable toLowerCase s ->
               App.typingCount (App.chat s)
               = if App.isBotTyping s then 1%nat else 0%nat)
    /\ (forall s text k now,
           App.isBotTyping s = true ->
           App.botReply text k now s = (App.Resolved, s))
    /\ (forall s text rnd,
           Page.typingCount
             (Page.messagesEl (Page.simulateBotReply text rnd s))
           = S (Page.typingCount (Page.messagesEl s))).
Proof.
  intros toLowerCase. split; [|split].
  - intros s Hs. apply cycleInv_reachable in Hs.
    unfold App.cycleInv, App.typingCount in *.
    destruct (App.isBotTyping s).
    + destruct Hs as (p & _ & ->). reflexivity.
    + destruct Hs as [_ ->]. reflexivity.
  - intros s text k now Hb. unfold App.botReply. rewrite Hb. reflexivity.
  - intros s text rnd. unfold Page.simulateBotReply. cbn.
    induction (Page.messagesEl s) as [|[r c t|i] rows IH]; cbn;
      [reflexivity|exact IH|]. rewrite IH. reflexivity.
Qed.

Lemma typing_indicator_gate_witness :
  App.typingCount (App.chat appComposing) = 1%nat
  /\ App.botReply App.reply_help [] t2 appComposing
     = (App.Resolved, appComposing).
Proof.
  destruct (typing_indicator_gate caseless) as (Hcount & Hgate & _). split.
  - apply (Hcount appComposing). apply appLive_reachable.
  - apply Hgate. reflexivity.
Defined.

(** C2 fails in the second demo: two messages sent one after the other
    leave two typing indicators on display. *)
Lemma page_two_typing_indicators :
  let s := Page.run
             [Page.MessageInput [97]; Page.ComposerSubmit t1 0;
              Page.MessageInput [98]; Page.ComposerSubmit t1 0] pageLive in
  Page.reachable s /\ Page.typingCount (Page.messagesEl s) = 2%nat.
Proof.
  split; [apply pageLive_reachable|]. vm_compute. reflexivity.
Qed.

(** While a reply is being composed the loop of the script handler runs
    to its end within the task: each bot turn is dropped by the gate of
    [botReply], each user turn is appended, nothing else changes. *)
Lemma playSteps_composing now steps :
  forall s,
    App.isBotTyping s = true ->
    App.playSteps now steps s
    = App.set_chat (App.chat s ++ App.userTurnRows now steps) s.
Proof.
  induction steps as [|st rest IH]; intros s Hb;
    cbn [App.playSteps App.userTurnRows flat_map].
  - destruct s. cbn. rewrite app_nil_r. reflexivity.
  - destruct (App.step_role st).
    + rewrite IH by exact Hb. destruct s. cbn. rewrite <- app_assoc.
      reflexivity.
    + unfold App.botReply. rewrite Hb. apply IH, Hb.
Qed.

(** C4, as the code has it.  For a script of the table, playback that is
    triggered in a reachable state with no reply being composed, and is
    left to run, takes one task for the click and one per bot turn.  It
    appends the N turns of the script in their order and with their
    roles, and no reply cycle is left at the end.  Before each bot turn
    there is a task boundary at which the display is the earlier turns
    followed by the typing indicator; a user turn is on display by the
    end of the task that reaches it.  Triggered in any state in which a
    reply is being composed, playback ends within the task of the click:
    the gate of [botReply] drops every bot turn of the script, the user
    turns are appended, nothing is scheduled and the rest of the state
    is unchanged. *)
Theorem scripted_playback_from_idle :
  forall (toLowerCase : jsstring -> jsstring) key steps now,
    getProp App.scripts key = OwnProp steps ->
    (forall s nows,
        App.reachable toLowerCase s ->
        App.isBotTyping s = false ->
        length nows = App.botTurns steps ->
        let trace := App.playback key now nows s in
        map App.visuals trace = App.expectedDisplays (App.visuals s) steps
        /\ length trace = S (App.botTurns steps)
        /\ (exists final,
               last trace = Some final
               /\ App.visuals final = App.visuals s ++ map App.shown steps
               /\ App.isBotTyping final = false
               /\ App.timers final = [])
        /\ (forall pre st post,
               steps = pre ++ st :: post -> App.step_role st = App.bot ->
               exists s', trace !! App.botTurns pre = Some s'
                          /\ App.visuals s'
                             = App.visuals s ++ map App.shown pre
                                 ++ [App.VTyping])
        /\ (forall pre st post,
               steps = pre ++ st :: post -> App.step_role st = App.user ->
               exists s', trace !! App.botTurns pre = Some s'
                          /\ (App.visuals s ++ map App.shown pre
                                ++ [App.shown st])
                               `prefix_of` App.visuals s'))
    /\ (forall s,
           App.isBotTyping s = true ->
           let out := App.step toLowerCase (App.ScriptClick key now) s in
           out = (Ok tt,
                  App.set_chat (App.chat s ++ App.userTurnRows now steps) s)
           /\ App.playback key now [] s = [snd out]
           /\ App.timers (snd out) = App.timers s
           /\ App.isBotTyping (snd out) = true
           /\ App.typingIds (App.chat (snd out)) = App.typingIds (App.chat s)
           /\ Forall (fun r => exists text, r = App.MessageRow App.user text now)
                     (App.userTurnRows now steps)).
Proof.
  intros toLowerCase key steps now Hkey. split.
  - intros s nows Hs Hb Hn trace.
    apply cycleInv_reachable in Hs.
    destruct (idle_of_cycleInv s Hs Hb) as [Ht Hc].
    destruct (playSteps_trace steps s now nows Hb Ht Hc Hn)
      as (Hv & final & Hl & Hfb & Hft).
    assert (Etrace : trace = App.playSteps now steps s
                             :: App.fireAll nows (App.playSteps now steps s)).
    { unfold trace, App.playback, App.scriptClick. rewrite Hkey. reflexivity. }
    cbv zeta in Hv, Hl. rewrite <- Etrace in Hv, Hl.
    split; [exact Hv|]. split; [|split; [|split]].
    + rewrite <- (length_map App.visuals), Hv. apply expectedDisplays_length.
    + exists final. split; [exact Hl|]. split; [|split; assumption].
      pose proof (expectedDisplays_last steps (App.visuals s)) as He.
      rewrite <- Hv in He. change (map ?f ?l) with (f <$> l) in He.
      rewrite fmap_last, Hl in He. injection He as He. exact He.
    + intros pre st post -> Hst.
      pose proof (expectedDisplays_bot pre st post Hst (App.visuals s)) as He.
      rewrite <- Hv in He. change (map ?f ?l) with (f <$> l) in He.
      rewrite list_lookup_fmap in He.
      destruct (trace !! App.botTurns pre) as [s'|]; [|discriminate].
      exists s'. split; [reflexivity|]. injection He as He. exact He.
    + intros pre st post -> Hst.
      destruct (expectedDisplays_user pre st post Hst (App.visuals s))
        as (d & He & Hp).
      rewrite <- Hv in He. change (map ?f ?l) with (f <$> l) in He.
      rewrite list_lookup_fmap in He.
      destruct (trace !! App.botTurns pre) as [s'|]; [|discriminate].
      exists s'. split; [reflexivity|]. injection He as He.
      rewrite He. exact Hp.
  - intros s Hb. cbv zeta.
    assert (Hrows : Forall (fun r => exists text,
                                r = App.MessageRow App.user text now)
                           (App.userTurnRows now steps)).
    { unfold App.userTurnRows. clear.
      induction steps as [|st rest IH]; cbn [flat_map]; [constructor|].
      destruct (App.step_role st); cbn [app]; [|exact IH].
      constructor; [eexists; reflexivity|exact IH]. }
    assert (Eout : App.step toLowerCase (App.ScriptClick key now) s
                   = (Ok tt,
                      App.set_chat
                        (App.chat s ++ App.userTurnRows now steps) s)).
    { cbn [App.step]. unfold App.scriptClick. rewrite Hkey.
      unfold modify. rewrite (playSteps_composing now steps s Hb).
      reflexivity. }
    split; [exact Eout|].
    split.
    { unfold App.playback.
      change (App.scriptClick key now s)
        with (App.step toLowerCase (App.ScriptClick key now) s).
      rewrite Eout. reflexivity. }
    rewrite Eout. cbn [snd].
    split; [reflexivity|]. split; [exact Hb|]. split; [|exact Hrows].
    cbn [App.chat App.set_chat]. rewrite typingIds_app.
    rewrite <- (app_nil_r (App.typingIds (App.chat s))) at 2. f_equal.
    clear -Hrows. induction Hrows as [|r rows (text & ->) _ IH];
      [reflexivity|exact IH].
Qed.

Lemma scripted_playback_from_idle_witness :
  exists steps,
    getProp App.scripts s_intro = OwnProp steps
    /\ map App.visuals (App.playback s_intro t1 [t2; t3] appLive)
       = App.expectedDisplays (App.visuals appLive) steps.
Proof.
  eexists. split; [vm_compute; reflexivity|].
  match goal with
  | |- context [App.expectedDisplays _ ?steps] =>
      destruct (scripted_playback_from_idle caseless s_intro steps t1)
        as [Hidle _]; [vm_compute; reflexivity|]
  end.
  apply (Hidle appLive [t2; t3]).
  - apply (appLive_reachable []).
  - reflexivity.
  - reflexivity.
Defined.

(** C4 fails for a state in which a reply is being composed: the bot
    turn of the script is dropped by the gate of [botReply], so the
    playback of the two turns of [faq] shows its user turn only. *)
Lemma playback_while_composing_drops_bot_turn :
  let trace := App.playback s_faq t2 [t3] appComposing in
  App.reachable caseless appComposing
  /\ exists user_turn bot_turn final,
       getProp App.scripts s_faq = OwnProp [user_turn; bot_turn]
       /\ App.step_role bot_turn = App.bot
       /\ last trace = Some final
       /\ App.timers final = []
       /\ ~ In (App.shown bot_turn) (App.visuals final).
Proof.
  split; [apply appLive_reachable|].
  eexists _, _, _. split; [vm_compute; reflexivity|].
  split; [reflexivity|]. split; [vm_compute; reflexivity|].
  split; [reflexivity|]. vm_compute. intuition discriminate.
Qed.

(** ** Second demo: [state.messages] is never written *)

Lemma page_messages_setTheme th s :
  fst (Page.setTheme th s) = Ok tt
  /\ Page.messages (snd (Page.setTheme th s)) = Page.messages s.
Proof.
  unfold Page.setTheme, bind, modify, try_catch, Page.store. cbn.
  destruct (setItem _ _ _) as [[[]|e] st]; split; reflexivity.
Qed.

Lemma page_messages_setPreset p s :
  fst (Page.setPreset p s) = Ok tt
  /\ Page.messages (snd (Page.setPreset p s)) = Page.messages s.
Proof.
  unfold Page.setPreset, bind, modify, try_catch, Page.store. cbn.
  destruct (setItem _ _ _) as [[[]|e] st]; split; reflexivity.
Qed.

Lemma page_messages_step e s :
  Page.messages s = [] -> Page.messages (snd (Page.step e s)) = [].
Proof.
  intros Hs. destruct e as [v|now rnd| |p|c|k now|st]; cbn [Page.step].
  - exact Hs.
  - cbn. unfold Page.composerSubmit.
    destruct (bool_decide _); [exact Hs|exact Hs].
  - reflexivity.
  - rewrite (proj2 (page_messages_setPreset p s)). exact Hs.
  - rewrite (proj2 (page_messages_setTheme _ s)). exact Hs.
  - unfold Page.timerFire.
    destruct (Page.timers s !! k) as [[ty ut d|]|]; cbn; try exact Hs.
    unfold Page.simulateBotReply_resume. cbn.
    destruct (Page.behaviorReply _ _); exact Hs.
  - exact Hs.
Qed.

Lemma page_messages_run es :
  forall s, Page.messages s = [] -> Page.messages (Page.run es s) = [].
Proof.
  induction es as [|e es IH]; intros s Hs; cbn; [exact Hs|].
  apply IH, page_messages_step, Hs.
Qed.

Lemma page_boot_ok now s :
  fst (Page.boot now s) = Ok tt
  /\ Page.messages (snd (Page.boot now s)) = Page.messages s.
Proof.
  unfold Page.boot. cbv zeta.
  destruct (Page.restore (Page.storage s)) as [th p].
  cbn [fst snd]. unfold bind.
  pose proof (page_messages_setTheme th s) as [Ht Hm].
  destruct (Page.setTheme th s) as [r1 s1]. cbn [fst snd] in *. subst r1.
  pose proof (page_messages_setPreset p s1) as [Hp Hm'].
  destruct (Page.setPreset p s1) as [r2 s2]. cbn [fst snd] in *. subst r2.
  cbn. rewrite Hm', Hm. split; reflexivity.
Qed.

(** C10. The stored history never holds a bot entry: in every reachable
    state of [app.js] each element of [state.history] has role [user],
    and in every reachable state of the second demo [state.messages] is
    empty. *)
Theorem history_has_no_bot_entry :
  forall (toLowerCase : jsstring -> jsstring),
    (forall s, App.reachable toLowerCase s ->
               Forall (fun e => App.entry_role e = App.user) (App.history s))
    /\ (forall s, Page.reachable s -> Page.messages s = []).
Proof.
  intros toLowerCase. split.
  - intros s (st & now & es & s0 & Hstart & <-).
    apply userOnly_run. unfold App.userOnly.
    rewrite (proj2 (start_facts _ _ _ Hstart)). constructor.
  - intros s (st & btns & now & es & <-).
    apply page_messages_run. unfold Page.start.
    rewrite (proj2 (page_boot_ok now _)). reflexivity.
Qed.

Lemma history_has_no_bot_entry_witness :
  Forall (fun e => App.entry_role e = App.user) (App.history appComposing)
  /\ Page.messages pageLive = [].
Proof.
  destruct (history_has_no_bot_entry caseless) as [HA HP]. split.
  - apply HA. apply appLive_reachable.
  - apply HP. exact pageLive_reachable_now.
Defined.

(** ** Sending a message *)

(** C5, as the code has it.  A submit whose trimmed text is empty changes
    nothing but the input box, which [app.js] clears.  Otherwise the
    user's message is appended at once, and [app.js] records it in the
    history.  [app.js] then starts one reply cycle when none is being
    composed and the handler does not raise, and none when one is being
    composed; the handler raises exactly when the theme category is the
    first to match and the store refuses the write of the theme (never in
    the pricing, help or fallback branch), and then no cycle starts.  The
    second demo starts one reply cycle on every such submit, whatever is
    pending. *)
Theorem submit_appends_and_starts_cycle :
  forall (toLowerCase : jsstring -> jsstring),
    (forall s now t pick,
        let text := trim (App.messageValue s) in
        let out := App.step toLowerCase (App.ComposerSubmit now t pick) s in
        let s' := snd out in
        if bool_decide (text = [])
        then out = (Ok tt, App.set_messageValue [] s)
        else
          App.history s' = App.history s ++ [App.mkEntry App.user text t]
          /\ match App.status_ok s with
             | true => fst out = Ok tt
             | false => True
             end
          /\ fst out
             = (let lower := toLowerCase text in
                if negb (includes lower App.kw_price1
                         || includes lower App.kw_price2)
                   && negb (includes lower App.kw_help1
                            || includes lower App.kw_help2)
                   && (includes lower App.kw_theme1
                       || includes lower App.kw_theme2)
                then match status (App.storage s) with
                     | StoreOk => Ok tt
                     | StoreFull => Throw QuotaExceededError
                     | StoreDenied => Throw SecurityError
                     end
                else Ok tt)
          /\ if App.isBotTyping s
             then App.chat s' = App.chat s ++ [App.MessageRow App.user text now]
                  /\ App.timers s' = App.timers s
                  /\ App.isBotTyping s' = true
             else match fst out with
                  | Ok _ =>
                    exists reply,
                      App.chat s'
                      = App.chat s ++ [App.MessageRow App.user text now;
                                       App.TypingRow (App.nextNode s) now]
                      /\ App.timers s'
                         = App.timers s
                             ++ [App.mkPending (App.nextNode s) reply
                                   (App.replyDelay reply) []]
                      /\ App.isBotTyping s' = true
                  | Throw _ =>
                    App.chat s' = App.chat s ++ [App.MessageRow App.user text now]
                    /\ App.timers s' = App.timers s
                    /\ App.isBotTyping s' = false
                  end)
    /\ (forall s now rnd,
           let text := trim (Page.messageInput s) in
           let s' := snd (Page.step (Page.ComposerSubmit now rnd) s) in
           if bool_decide (text = [])
           then s' = s
           else
             Page.messagesEl s'
             = Page.messagesEl s
                 ++ [Page.MessageRow Page.user (Page.VString text) now;
                     Page.TypingRow (Page.nextNode s)]
             /\ Page.timers s'
                = Page.timers s
                    ++ [Page.ReplyTimer (Page.nextNode s) text (rnd + 500)]
             /\ Page.messages s' = Page.messages s).
Proof.
  intros toLowerCase. split.
  - intros s now t pick. cbv zeta. cbn [App.step]. unfold App.composerSubmit.
    rewrite handleUserSend_eq. cbv zeta.
    destruct (bool_decide (trim (App.messageValue s) = [])); [reflexivity|].
    destruct s as [th h b rl ch mv [it stt] tm nn].
    unfold App.userMessageSent, App.botReply, App.toggleTheme,
      App.applyTheme, App.status_ok, bind, modify, setItem.
    app_state.
    repeat match goal with
           | |- context [if includes ?a ?b || includes ?c ?d then _ else _] =>
               destruct (includes a b || includes c d)
           end;
      destruct b; destruct stt;
      cbn [fst snd status items app negb andb]; app_state;
      cbn [fst snd app status];
      repeat split; try reflexivity;
      eexists; (split; [rewrite <- app_assoc; reflexivity|]);
      split; reflexivity.
  - intros s now rnd. cbv zeta. cbn [Page.step modify snd].
    unfold Page.composerSubmit.
    destruct (bool_decide (trim (Page.messageInput s) = [])); [reflexivity|].
    destruct s as [pr th ms bl sw lb pb me mi sto tm nn].
    unfold Page.simulateBotReply. page_state.
    rewrite <- app_assoc. repeat split; reflexivity.
Qed.

(** C5 fails in two places.  In the second demo a submit made while a
    reply is pending starts a second cycle.  In [app.js] a message with a
    theme keyword, sent while nothing is being composed, starts no cycle
    when the store refuses the write of the theme. *)
Lemma submit_cycle_counterexample :
  (let s := Page.set_messageInput [98] pageComposing in
   let s' := snd (Page.step (Page.ComposerSubmit t2 0) s) in
   Page.timers s = [Page.ReplyTimer 0 [97] 500]
   /\ Page.timers s'
      = [Page.ReplyTimer 0 [97] 500; Page.ReplyTimer 1 [98] 500]
   /\ Page.typingCount (Page.messagesEl s') = 2%nat)
  /\ (let a := appStoreFull in
      let out := App.step caseless (App.ComposerSubmit t1 0 App.Pick0) a in
      App.reachable caseless a
      /\ App.isBotTyping a = false
      /\ trim (App.messageValue a) = App.kw_theme1
      /\ fst out = Throw QuotaExceededError
      /\ App.timers (snd out) = []
      /\ App.typingCount (App.chat (snd out)) = 0%nat).
Proof.
  split.
  - vm_compute. repeat split; reflexivity.
  - split; [apply appLive_reachable|]. vm_compute. repeat split; reflexivity.
Qed.

(** ** Keyword dispatch *)

(** C6. When the lower-cased text of a message contains a pricing keyword,
    [handleUserSend] calls [botReply] with the fixed pricing reply and
    does nothing else after recording the message: the theme, the root
    class and the store stay as they are, so neither the help nor the
    theme branch nor the random pool is used.  When nothing is being
    composed, the timeout scheduled carries the pricing reply and its
    firing appends it as the bot's message; otherwise the gate drops the
    reply. *)
Theorem pricing_keyword_takes_precedence :
  forall (toLowerCase : jsstring -> jsstring) s raw now t pick,
    trim raw <> [] ->
    includes (toLowerCase (trim raw)) App.kw_price1
    || includes (toLowerCase (trim raw)) App.kw_price2 = true ->
    let out := App.handleUserSend toLowerCase raw now t pick s in
    let s' := snd out in
    out = (Ok tt,
           snd (App.botReply App.reply_price [] now
                  (App.userMessageSent (trim raw) now t s)))
    /\ App.theme s' = App.theme s
    /\ App.rootLight s' = App.rootLight s
    /\ App.storage s' = App.storage s
    /\ if App.isBotTyping s
       then App.timers s' = App.timers s
       else App.timers s'
            = App.timers s
                ++ [App.mkPending (App.nextNode s) App.reply_price
                      (App.replyDelay App.reply_price) []]
            /\ forall now',
                 last (App.chat (App.timerFire (length (App.timers s)) now' s'))
                 = Some (App.MessageRow App.bot App.reply_price now').
Proof.
  intros toLowerCase s raw now t pick Hne Hkw. cbv zeta.
  rewrite handleUserSend_eq. cbv zeta.
  rewrite bool_decide_eq_false_2 by exact Hne. rewrite Hkw.
  split; [reflexivity|].
  destruct s as [th h b rl ch mv sto tm nn].
  unfold App.botReply, App.userMessageSent. app_state.
  destruct b; cbn [snd]; app_state; repeat split; try reflexivity.
  intros now'. unfold App.timerFire. app_state.
  rewrite lookup_app_r by reflexivity. rewrite Nat.sub_diag.
  cbn [lookup list_lookup App.playSteps]. app_state.
  rewrite last_snoc. reflexivity.
Qed.

Lemma pricing_keyword_takes_precedence_witness :
  App.handleUserSend caseless priceQuestion t1 1000 App.Pick2 appLive
  = (Ok tt,
     snd (App.botReply App.reply_price [] t1
            (App.userMessageSent (trim priceQuestion) t1 1000 appLive))).
Proof.
  apply (pricing_keyword_takes_precedence caseless appLive priceQuestion
           t1 1000 App.Pick2).
  - vm_compute. discriminate.
  - vm_compute. reflexivity.
Defined.

(** ** Storage failures *)

Lemma page_setTheme_fields th s :
  let s' := snd (Page.setTheme th s) in
  Page.theme s' = (if bool_decide (th = Page.s_light)
                   then Page.s_light else Page.s_dark)
  /\ Page.preset s' = Page.preset s.
Proof.
  destruct s as [pr t ms bl sw lb pb me mi [it stt] tm nn].
  unfold Page.setTheme, bind, modify, try_catch, Page.store, setItem.
  page_state. destruct stt; split; reflexivity.
Qed.

Lemma page_setPreset_fields p s :
  let s' := snd (Page.setPreset p s) in
  Page.theme s' = Page.theme s /\ Page.preset s' = p.
Proof.
  destruct s as [pr t ms bl sw lb pb me mi [it stt] tm nn].
  unfold Page.setPreset, bind, modify, try_catch, Page.store, setItem.
  page_state. destruct stt; split; reflexivity.
Qed.

Lemma page_boot_fields now s :
  let s' := snd (Page.boot now s) in
  let saved := Page.restore (Page.storage s) in
  Page.theme s' = (if bool_decide (fst saved = Page.s_light)
                   then Page.s_light else Page.s_dark)
  /\ Page.preset s' = snd saved.
Proof.
  cbv zeta. unfold Page.boot. cbv zeta.
  destruct (Page.restore (Page.storage s)) as [th p]. cbn [fst snd].
  unfold bind.
  pose proof (page_messages_setTheme th s) as [Ht _].
  pose proof (page_setTheme_fields th s) as [Ht1 Ht2].
  destruct (Page.setTheme th s) as [r1 s1]. cbn [fst snd] in *. subst r1.
  pose proof (page_messages_setPreset p s1) as [Hp _].
  pose proof (page_setPreset_fields p s1) as [Hp1 Hp2].
  destruct (Page.setPreset p s1) as [r2 s2]. cbn [fst snd] in *. subst r2.
  unfold modify. cbn [snd]. page_state.
  destruct s2. cbn in *. rewrite <- Ht1, <- Hp1, Hp2. split; reflexivity.
Qed.

Lemma page_dark_is_not_light :
  bool_decide (Page.s_dark = Page.s_light) = false.
Proof. vm_compute. reflexivity. Qed.

(** C7, as the code has it.  The second demo never lets a storage error
    out: [boot], [setTheme] and [setPreset] always return, and [boot]
    ends with theme [dark] when the saved theme is missing or the store
    is denied, and with preset [friendly], the first of the table, when
    the saved preset is missing or the store is denied.  [app.js] falls
    back to [dark] when the saved theme is missing, but does not guard
    its storage calls: loading raises when the store is denied, and
    [applyTheme] sets the theme and then raises whenever the store
    refuses the write. *)
Theorem storage_failures_by_demo :
  (forall st btns now,
      let out := Page.start st btns now in
      fst out = Ok tt
      /\ (status st = StoreDenied \/ items st !! Page.s_chat_theme = None ->
          Page.theme (snd out) = Page.s_dark)
      /\ (status st = StoreDenied \/ items st !! Page.s_chat_preset = None ->
          Page.preset (snd out) = Page.s_friendly))
  /\ head (map fst Page.PRESET_BEHAVIORS) = Some Page.s_friendly
  /\ (forall th p s,
         fst (Page.setTheme th s) = Ok tt /\ fst (Page.setPreset p s) = Ok tt)
  /\ (forall st,
         status st <> StoreDenied -> items st !! App.s_theme = None ->
         exists s0, App.load st = Ok s0 /\ App.theme s0 = App.s_dark)
  /\ (forall st, status st = StoreDenied -> App.load st = Throw SecurityError)
  /\ (forall th s,
         App.theme (snd (App.applyTheme th s)) = th
         /\ fst (App.applyTheme th s)
            = match status (App.storage s) with
              | StoreOk => Ok tt
              | StoreFull => Throw QuotaExceededError
              | StoreDenied => Throw SecurityError
              end).
Proof.
  split; [|split; [|split; [|split; [|split]]]].
  - intros st btns now. cbv zeta. unfold Page.start.
    destruct (page_boot_ok now (Page.initial st btns)) as [Hok _].
    destruct (page_boot_fields now (Page.initial st btns)) as [Hth Hpr].
    cbn [Page.initial Page.storage] in Hth, Hpr.
    split; [exact Hok|]. split.
    + intros H. rewrite Hth.
      assert (E : fst (Page.restore st) = Page.s_dark).
      { unfold Page.restore, getItem. destruct st as [it stt]. cbn in *.
        destruct H as [-> | ->]; [reflexivity|].
        destruct stt; [| |reflexivity];
          destruct (it !! Page.s_chat_preset) as [[|]|]; reflexivity. }
      rewrite E, page_dark_is_not_light. reflexivity.
    + intros H. rewrite Hpr.
      unfold Page.restore, getItem. destruct st as [it stt]. cbn in *.
      destruct H as [-> | ->]; [reflexivity|].
      destruct stt; reflexivity.
  - reflexivity.
  - intros th p s. split.
    + apply page_messages_setTheme.
    + apply page_messages_setPreset.
  - intros [it stt] Hs Hi. cbn in *. unfold App.load, getItem. cbn.
    rewrite Hi. destruct stt; [| |contradiction]; eexists; split; reflexivity.
  - intros [it stt] Hs. cbn in Hs. subst stt. reflexivity.
  - intros th s. destruct s as [t h b rl ch mv [it stt] tm nn].
    unfold App.applyTheme, bind, modify, setItem. app_state.
    destruct stt; split; reflexivity.
Qed.

Lemma storage_failures_by_demo_witness :
  Page.theme (snd (Page.start (mkStorage ∅ StoreDenied) [] t0)) = Page.s_dark
  /\ Page.preset (snd (Page.start (mkStorage ∅ StoreDenied) [] t0))
     = Page.s_friendly
  /\ (exists s0, App.load emptyStore = Ok s0 /\ App.theme s0 = App.s_dark)
  /\ App.load (mkStorage ∅ StoreDenied) = Throw SecurityError.
Proof.
  destruct storage_failures_by_demo as (Hp & _ & _ & Ha & Hd & _).
  destruct (Hp (mkStorage ∅ StoreDenied) [] t0) as (_ & Ht & Hr).
  split; [apply Ht; left; reflexivity|].
  split; [apply Hr; left; reflexivity|].
  split; [apply Ha; [discriminate|reflexivity]|].
  apply Hd. reflexivity.
Defined.

(** C7 fails in [app.js]: over a denied store the page does not start,
    and with a store that refuses writes [applyTheme] raises. *)
Lemma app_storage_error_escapes :
  App.load (mkStorage ∅ StoreDenied) = Throw SecurityError
  /\ App.start (mkStorage ∅ StoreDenied) t0 = None
  /\ App.reachable caseless appStoreFull
  /\ fst (App.step caseless App.ThemeToggleClick appStoreFull)
     = Throw QuotaExceededError.
Proof.
  split; [reflexivity|]. split; [reflexivity|].
  split; [apply appLive_reachable|]. vm_compute. reflexivity.
Qed.

(** ** Resetting the chat *)

(** C9. [resetChat], which is all the new-chat button runs, empties
    [state.messages] and the children of [#messages] and leaves every
    other component as it is: the store, the theme and the preset in
    memory, the theme controls, the preset buttons, the input box and the
    scheduled timeouts. *)
Theorem reset_clears_messages_only :
  forall s,
    let out := Page.step Page.NewChatClick s in
    let s' := snd out in
    out = (Ok tt, Page.resetChat s)
    /\ Page.messages s' = []
    /\ Page.messagesEl s' = []
    /\ Page.storage s' = Page.storage s
    /\ Page.theme s' = Page.theme s
    /\ Page.preset s' = Page.preset s
    /\ Page.bodyLight s' = Page.bodyLight s
    /\ Page.themeSwitch s' = Page.themeSwitch s
    /\ Page.themeLabel s' = Page.themeLabel s
    /\ Page.presetButtons s' = Page.presetButtons s
    /\ Page.messageInput s' = Page.messageInput s
    /\ Page.timers s' = Page.timers s
    /\ Page.nextNode s' = Page.nextNode s.
Proof. intros s. cbv zeta. repeat split; reflexivity. Qed.

(** ** Unknown identifiers *)

Lemma unknown_script_plays_nothing key now s :
  ownProp App.scripts key = None -> key ∉ objectPrototypeKeys ->
  App.scriptClick key now s = (Ok tt, s).
Proof.
  intros Hown Hproto. unfold App.scriptClick, getProp.
  rewrite Hown, bool_decide_eq_false_2 by exact Hproto. reflexivity.
Qed.

Lemma unknown_preset_replies_friendly p text :
  ownProp Page.PRESET_BEHAVIORS p = None -> p ∉ objectPrototypeKeys ->
  Page.behaviorReply p text = Ok (Page.VString (Page.friendly text)).
Proof.
  intros Hown Hproto. unfold Page.behaviorReply, getProp.
  rewrite Hown, bool_decide_eq_false_2 by exact Hproto. reflexivity.
Qed.

(** C8 at its failing input.  The identifier [constructor] is in neither
    table, yet the lookup finds the property inherited from
    [Object.prototype]: with that preset saved in the store the reply to
    [hello] is the text itself and not the friendly reply, with
    [valueOf] the reply raises, and a script button with that key makes
    the click handler raise. *)
Theorem inherited_name_bypasses_fallback :
  let s0 := snd (Page.start presetConstructorStore [] t0) in
  let s := Page.run [Page.MessageInput hello; Page.ComposerSubmit t1 0;
                     Page.TimerFire 0 t2] s0 in
  ownProp Page.PRESET_BEHAVIORS Page.s_constructor = None
  /\ Page.preset s0 = Page.s_constructor
  /\ last (Page.messagesEl s)
     = Some (Page.MessageRow Page.bot (Page.VStringObject hello) t2)
  /\ Page.toString (Page.VStringObject hello) <> Page.friendly hello
  /\ Page.behaviorReply s_valueOf hello = Throw TypeError
  /\ ownProp App.scripts Page.s_constructor = None
  /\ App.scriptClick Page.s_constructor t1 appLive = (Throw TypeError, appLive).
Proof.
  cbv zeta. repeat split; try (vm_compute; reflexivity).
  vm_compute. discriminate.
Qed.

(** * Further verified properties *)

(** ** [trim] *)

Lemma trimStart_nil_iff (s : jsstring) :
  trimStart s = [] <-> forallb isWhiteSpace s = true.
Proof.
  induction s as [|c r IH]; cbn [trimStart forallb]; [tauto|].
  destruct (isWhiteSpace c); cbn [andb]; [exact IH|].
  split; discriminate.
Qed.

Lemma trimStart_head (s : jsstring) c r :
  trimStart s = c :: r -> isWhiteSpace c = false.
Proof.
  induction s as [|x s IH]; cbn [trimStart]; [discriminate|].
  destruct (isWhiteSpace x) eqn:E; [exact IH|].
  intros [= <- _]. exact E.
Qed.

Lemma trimStart_fixed c (r : jsstring) :
  isWhiteSpace c = false -> trimStart (c :: r) = c :: r.
Proof. intros E. cbn [trimStart]. rewrite E. reflexivity. Qed.

Lemma trimStart_idempotent (s : jsstring) :
  trimStart (trimStart s) = trimStart s.
Proof.
  destruct (trimStart s) as [|c r] eqn:E; [reflexivity|].
  apply trimStart_fixed, (trimStart_head s c r E).
Qed.

Lemma trimStart_snoc (l : jsstring) c :
  isWhiteSpace c = false -> trimStart (l ++ [c]) = trimStart l ++ [c].
Proof.
  intros E. induction l as [|x l IH]; cbn [app trimStart].
  - rewrite E. reflexivity.
  - destruct (isWhiteSpace x); [exact IH|reflexivity].
Qed.

Lemma trimEnd_cons c (r : jsstring) :
  isWhiteSpace c = false -> trimEnd (c :: r) = c :: trimEnd r.
Proof.
  intros E. unfold trimEnd. cbn [rev].
  rewrite (trimStart_snoc _ _ E), rev_app_distr. reflexivity.
Qed.

Lemma forallb_rev_eq {A} (f : A -> bool) (l : list A) :
  forallb f (rev l) = forallb f l.
Proof.
  induction l as [|x l IH]; [reflexivity|].
  cbn [rev forallb]. rewrite forallb_app, IH. cbn [forallb].
  rewrite andb_true_r. apply andb_comm.
Qed.

Lemma trimEnd_nil_iff (s : jsstring) :
  trimEnd s = [] <-> forallb isWhiteSpace s = true.
Proof.
  unfold trimEnd. rewrite <- (rev_involutive s) at 2.
  rewrite forallb_rev_eq, <- trimStart_nil_iff.
  split; intros H.
  - apply (f_equal (@rev Z)) in H. rewrite rev_involutive in H. exact H.
  - rewrite H. reflexivity.
Qed.

Lemma trimEnd_idempotent (s : jsstring) : trimEnd (trimEnd s) = trimEnd s.
Proof.
  unfold trimEnd. rewrite rev_involutive, trimStart_idempotent. reflexivity.
Qed.

Lemma trimEnd_last (s : jsstring) d :
  last (trimEnd s) = Some d -> isWhiteSpace d = false.
Proof.
  unfold trimEnd. destruct (trimStart (rev s)) as [|c r] eqn:E;
    [discriminate|].
  cbn [rev]. rewrite last_snoc. intros [= <-].
  apply (trimStart_head _ _ _ E).
Qed.

Lemma trim_nil_iff (s : jsstring) :
  trim s = [] <-> forallb isWhiteSpace s = true.
Proof.
  unfold trim. rewrite trimEnd_nil_iff. split; intros H.
  - apply trimStart_nil_iff.
    destruct (trimStart s) as [|c r] eqn:E; [reflexivity|].
    cbn [forallb] in H. rewrite (trimStart_head s c r E) in H. discriminate.
  - apply trimStart_nil_iff in H. rewrite H. reflexivity.
Qed.

Lemma trim_idempotent (s : jsstring) : trim (trim s) = trim s.
Proof.
  unfold trim. destruct (trimStart s) as [|c r] eqn:E; [reflexivity|].
  pose proof (trimStart_head s c r E) as Hc.
  rewrite (trimEnd_cons c r Hc), (trimStart_fixed c _ Hc).
  rewrite <- (trimEnd_cons c r Hc). apply trimEnd_idempotent.
Qed.

(** A trimmed text that is not empty starts and ends with a code unit
    that is not whitespace. *)
Lemma trim_ends (s : jsstring) :
  trim s <> [] ->
  exists c d, head (trim s) = Some c /\ isWhiteSpace c = false
              /\ last (trim s) = Some d /\ isWhiteSpace d = false.
Proof.
  intros Hne. unfold trim in *.
  destruct (trimStart s) as [|c r] eqn:E; [contradiction Hne; reflexivity|].
  pose proof (trimStart_head s c r E) as Hc.
  rewrite (trimEnd_cons c r Hc).
  destruct (last (c :: trimEnd r)) as [d|] eqn:El.
  - exists c, d. repeat split; try assumption.
    rewrite <- (trimEnd_cons c r Hc) in El. apply (trimEnd_last _ _ El).
  - rewrite last_cons in El. destruct (last (trimEnd r)); discriminate.
Qed.

(** ** First demo: what a submit adds *)

Lemma handleUserSend_adds (toLowerCase : jsstring -> jsstring)
      raw now t pick s :
  trim raw <> [] ->
  let s' := snd (App.handleUserSend toLowerCase raw now t pick s) in
  App.history s' = App.history s ++ [App.mkEntry App.user (trim raw) t]
  /\ exists tail,
       App.chat s' = App.chat s ++ App.MessageRow App.user (trim raw) now :: tail
       /\ App.messageRows tail = [].
Proof.
  intros Hne. cbv zeta. rewrite handleUserSend_eq. cbv zeta.
  rewrite bool_decide_eq_false_2 by exact Hne.
  destruct s as [th h b rl ch mv [it stt] tm nn].
  unfold App.userMessageSent, App.botReply, App.toggleTheme,
    App.applyTheme, bind, modify, setItem.
  app_state.
  repeat match goal with
         | |- context [if includes ?a ?b || includes ?c ?d then _ else _] =>
             destruct (includes a b || includes c d)
         end;
    destruct b; destruct stt;
    cbn [fst snd status items app]; app_state; cbn [fst snd app];
    (split; [reflexivity|]);
    first [ exists []; split; reflexivity
          | eexists [_]; split; [rewrite <- app_assoc; reflexivity|reflexivity] ].
Qed.

(** X1. In both demos a submit whose input holds nothing but whitespace
    is ignored ([app.js] only clears the box); any other input appends a
    user message whose text starts and ends with a code unit that is not
    whitespace. *)
Theorem blank_input_is_ignored :
  forall (toLowerCase : jsstring -> jsstring),
    (forall s now t pick,
        let s' := snd (App.step toLowerCase (App.ComposerSubmit now t pick) s) in
        let text := trim (App.messageValue s) in
        if forallb isWhiteSpace (App.messageValue s)
        then s' = App.set_messageValue [] s
        else exists tail c d,
            App.chat s' = App.chat s ++ App.MessageRow App.user text now :: tail
            /\ head text = Some c /\ isWhiteSpace c = false
            /\ last text = Some d /\ isWhiteSpace d = false)
    /\ (forall s now rnd,
           let s' := snd (Page.step (Page.ComposerSubmit now rnd) s) in
           let text := trim (Page.messageInput s) in
           if forallb isWhiteSpace (Page.messageInput s)
           then s' = s
           else exists c d,
               Page.messagesEl s'
               = Page.messagesEl s
                   ++ [Page.MessageRow Page.user (Page.VString text) now;
                       Page.TypingRow (Page.nextNode s)]
               /\ head text = Some c /\ isWhiteSpace c = false
               /\ last text = Some d /\ isWhiteSpace d = false).
Proof.
  intros toLowerCase. split.
  - intros s now t pick. cbv zeta. cbn [App.step]. unfold App.composerSubmit.
    destruct (forallb isWhiteSpace (App.messageValue s)) eqn:Ews.
    + apply trim_nil_iff in Ews. rewrite handleUserSend_eq. cbv zeta.
      rewrite Ews. reflexivity.
    + assert (Hne : trim (App.messageValue s) <> []).
      { intros H. apply trim_nil_iff in H. congruence. }
      destruct (handleUserSend_adds toLowerCase (App.messageValue s)
                  now t pick s Hne) as (_ & tail & Hc & _).
      destruct (trim_ends _ Hne) as (c & d & H1 & H2 & H3 & H4).
      exists tail, c, d.
      destruct (App.handleUserSend _ _ _ _ _ s) as [r s1].
      cbn [snd] in *. split; [exact Hc|]. auto.
  - intros s now rnd. cbv zeta. cbn [Page.step modify snd].
    unfold Page.composerSubmit.
    destruct (forallb isWhiteSpace (Page.messageInput s)) eqn:Ews.
    + apply trim_nil_iff in Ews. rewrite Ews. reflexivity.
    + assert (Hne : trim (Page.messageInput s) <> []).
      { intros H. apply trim_nil_iff in H. congruence. }
      rewrite bool_decide_eq_false_2 by exact Hne.
      destruct (trim_ends _ Hne) as (c & d & H1 & H2 & H3 & H4).
      exists c, d.
      split; [|auto].
      destruct s as [pr th ms bl sw lb pb me mi sto tm nn].
      unfold Page.simulateBotReply. page_state.
      rewrite <- app_assoc. reflexivity.
Qed.

(** ** First demo: the display only grows *)

Lemma messageRows_app (a b : list App.Row) :
  App.messageRows (a ++ b) = App.messageRows a ++ App.messageRows b.
Proof. unfold App.messageRows. apply List.filter_app. Qed.

Lemma messageRows_removeNode id (rows : list App.Row) :
  App.messageRows (App.removeNode id rows) = App.messageRows rows.
Proof.
  unfold App.messageRows, App.removeNode.
  induction rows as [|[r t n|i n] rows IH]; cbn [List.filter];
    [reflexivity| |].
  - rewrite IH. reflexivity.
  - destruct (Nat.eqb i id); cbn [negb List.filter]; exact IH.
Qed.

Lemma messageRows_botReply text k now s :
  App.messageRows (App.chat (snd (App.botReply text k now s)))
  = App.messageRows (App.chat s).
Proof.
  unfold App.botReply. destruct (App.isBotTyping s); [reflexivity|].
  cbn. rewrite messageRows_app. cbn. apply app_nil_r.
Qed.

Lemma messageRows_playSteps now steps :
  forall s,
    App.messageRows (App.chat s)
      `prefix_of` App.messageRows (App.chat (App.playSteps now steps s)).
Proof.
  induction steps as [|st rest IH]; intros s; cbn [App.playSteps];
    [reflexivity|].
  destruct (App.step_role st).
  - etransitivity; [|apply IH]. cbn. rewrite messageRows_app.
    apply prefix_app_r. reflexivity.
  - pose proof (messageRows_botReply (App.step_text st) rest now s) as Hb.
    destruct (App.botReply (App.step_text st) rest now s) as [[] s'];
      cbn [snd] in Hb; rewrite <- Hb; [apply IH|reflexivity].
Qed.

Lemma messageRows_timerFire k now s :
  App.messageRows (App.chat s)
    `prefix_of` App.messageRows (App.chat (App.timerFire k now s)).
Proof.
  unfold App.timerFire. destruct (App.timers s !! k) as [p|]; [|reflexivity].
  etransitivity; [|apply messageRows_playSteps]. cbn.
  rewrite messageRows_app, messageRows_removeNode.
  apply prefix_app_r. reflexivity.
Qed.

(** What one task does to the history and to the message rows: either
    the history stays and the rows grow at the end, or the user's trimmed,
    non-empty text is added to both. *)
Lemma step_history_rows (toLowerCase : jsstring -> jsstring) e s :
  let s' := snd (App.step toLowerCase e s) in
  (App.history s' = App.history s
   /\ App.messageRows (App.chat s)
        `prefix_of` App.messageRows (App.chat s'))
  \/ (exists raw t now,
         trim raw <> []
         /\ App.history s' = App.history s ++ [App.mkEntry App.user (trim raw) t]
         /\ App.messageRows (App.chat s')
            = App.messageRows (App.chat s)
                ++ [App.MessageRow App.user (trim raw) now]).
Proof.
  cbv zeta. destruct e as [|v|now t pick|key now|k now|st]; cbn [App.step].
  - left. pose proof (toggleTheme_frame s) as (Hc&_&_&Hh&_).
    rewrite Hc, Hh. split; reflexivity.
  - left. split; reflexivity.
  - unfold App.composerSubmit.
    destruct (decide (trim (App.messageValue s) = [])) as [E|Hne].
    + left. rewrite handleUserSend_eq. cbv zeta. rewrite E. cbn.
      split; reflexivity.
    + right. exists (App.messageValue s), t, now.
      destruct (handleUserSend_adds toLowerCase _ now t pick s Hne)
        as (Hh & tail & Hc & Ht).
      destruct (App.handleUserSend _ _ _ _ _ s) as [r s1]. cbn [snd] in *.
      split; [exact Hne|]. split; [exact Hh|]. cbn [App.chat App.set_messageValue].
      rewrite Hc.
      change (?x :: tail) with ([x] ++ tail).
      rewrite !messageRows_app, Ht. reflexivity.
  - left. unfold App.scriptClick.
    destruct (getProp App.scripts key); cbn; try (split; reflexivity).
    split; [apply history_playSteps|apply messageRows_playSteps].
  - left. cbn. split; [apply history_timerFire|apply messageRows_timerFire].
  - left. split; reflexivity.
Qed.

(** X2. In [app.js] no task removes, reorders or rewrites a message on
    display: along every sequence of events the message rows of [#chat]
    only grow at the end. *)
Theorem display_is_append_only :
  forall (toLowerCase : jsstring -> jsstring) es s,
    App.messageRows (App.chat s)
      `prefix_of` App.messageRows (App.chat (App.run toLowerCase es s)).
Proof.
  intros toLowerCase es. induction es as [|e es IH]; intros s; cbn [App.run];
    [reflexivity|].
  etransitivity; [|apply IH].
  destruct (step_history_rows toLowerCase e s)
    as [[_ H]|(raw & t & now & _ & _ & H)]; [exact H|].
  rewrite H. apply prefix_app_r. reflexivity.
Qed.

(** ** First demo: the history against the display *)

Lemma userTexts_app (a b : list App.Row) :
  App.userTexts (a ++ b) = App.userTexts a ++ App.userTexts b.
Proof.
  induction a as [|[[] t n|i n] a IH]; cbn [app App.userTexts];
    rewrite ?IH; reflexivity.
Qed.

Lemma userTexts_messageRows (rows : list App.Row) :
  App.userTexts (App.messageRows rows) = App.userTexts rows.
Proof.
  unfold App.messageRows.
  induction rows as [|[[] t n|i n] rows IH];
    cbn [List.filter App.userTexts]; rewrite ?IH; reflexivity.
Qed.

Lemma userTexts_prefix (a b : list App.Row) :
  App.messageRows a `prefix_of` App.messageRows b ->
  App.userTexts a `prefix_of` App.userTexts b.
Proof.
  intros [k Hk].
  rewrite <- (userTexts_messageRows a), <- (userTexts_messageRows b), Hk.
  rewrite userTexts_app. apply prefix_app_r. reflexivity.
Qed.

Lemma historyOk_step (toLowerCase : jsstring -> jsstring) e s :
  App.historyOk s -> App.historyOk (snd (App.step toLowerCase e s)).
Proof.
  intros [Hsub Hall]. unfold App.historyOk.
  destruct (step_history_rows toLowerCase e s)
    as [[Hh Hp]|(raw & t & now & Hne & Hh & Hr)]; rewrite Hh.
  - split; [|exact Hall].
    destruct (userTexts_prefix _ _ Hp) as [k ->].
    apply sublist_inserts_r, Hsub.
  - split.
    + rewrite <- (userTexts_messageRows (App.chat (snd _))), Hr.
      rewrite userTexts_app, userTexts_messageRows, map_app.
      apply sublist_app; [exact Hsub|reflexivity].
    + apply Forall_app. split; [exact Hall|].
      constructor; [|constructor]. cbn. split; [exact Hne|].
      apply trim_idempotent.
Qed.

(** X3. In every reachable state of [app.js] the texts recorded in
    [state.history] are on display as user messages, in the order of the
    history, and each recorded text is non-empty and already trimmed. *)
Theorem history_is_displayed_and_trimmed :
  forall (toLowerCase : jsstring -> jsstring) s,
    App.reachable toLowerCase s ->
    map App.entry_text (App.history s) `sublist_of` App.userTexts (App.chat s)
    /\ Forall (fun e => App.entry_text e <> []
                        /\ trim (App.entry_text e) = App.entry_text e)
              (App.history s).
Proof.
  intros toLowerCase s (st & now & es & s0 & Hstart & <-).
  assert (H0 : App.historyOk s0).
  { destruct (start_facts _ _ _ Hstart) as [_ Hh]. unfold App.historyOk.
    rewrite Hh. split; [apply sublist_nil_l|constructor]. }
  clear Hstart. revert s0 H0.
  induction es as [|e es IH]; intros s0 H0; cbn [App.run]; [exact H0|].
  apply IH, historyOk_step, H0.
Qed.

Lemma history_is_displayed_and_trimmed_witness :
  map App.entry_text (App.history appComposing)
    `sublist_of` App.userTexts (App.chat appComposing).
Proof.
  apply (history_is_displayed_and_trimmed caseless appComposing).
  apply appLive_reachable.
Defined.

(** ** First demo: the bot says canned texts only *)

Lemma forallb_filter_keep {A} (f g : A -> bool) (l : list A) :
  forallb f l = true -> forallb f (List.filter g l) = true.
Proof.
  induction l as [|x l IH]; cbn [forallb List.filter]; [reflexivity|].
  intros [Hx Hl]%andb_true_iff. destruct (g x); cbn [forallb]; auto.
  rewrite Hx. auto.
Qed.

Lemma forallb_delete {A} (f : A -> bool) (l : list A) k :
  forallb f l = true -> forallb f (delete k l) = true.
Proof.
  revert k. induction l as [|x l IH]; intros k; [destruct k; reflexivity|].
  cbn [forallb]. intros [Hx Hl]%andb_true_iff.
  destruct k as [|k]; cbn; [exact Hl|]. rewrite Hx. apply IH, Hl.
Qed.

Lemma forallb_lookup {A} (f : A -> bool) (l : list A) k x :
  forallb f l = true -> l !! k = Some x -> f x = true.
Proof.
  revert k. induction l as [|y l IH]; intros k; [destruct k; discriminate|].
  cbn [forallb]. intros [Hy Hl]%andb_true_iff.
  destruct k as [|k]; cbn; [intros [= <-]; exact Hy|apply IH, Hl].
Qed.

Lemma scripts_are_canned key steps :
  ownProp App.scripts key = Some steps ->
  forallb App.cannedStep steps = true.
Proof.
  unfold App.scripts. cbn [ownProp].
  repeat (destruct (bool_decide _);
          [intros [= <-]; vm_compute; reflexivity|]).
  discriminate.
Qed.

Lemma cannedInv_frame (s s' : App.State) :
  App.chat s' = App.chat s -> App.timers s' = App.timers s ->
  App.cannedInv s -> App.cannedInv s'.
Proof. unfold App.cannedInv. intros -> ->. exact id. Qed.

Lemma cannedInv_appendMessage_user text now s :
  App.cannedInv s -> App.cannedInv (App.appendMessage App.user text now s).
Proof.
  unfold App.cannedInv. intros [Hc Ht]. cbn. split; [|exact Ht].
  rewrite forallb_app, Hc. reflexivity.
Qed.

Lemma cannedInv_botReply text k now s :
  bool_decide (text ∈ App.botTexts) = true ->
  forallb App.cannedStep k = true ->
  App.cannedInv s -> App.cannedInv (snd (App.botReply text k now s)).
Proof.
  unfold App.cannedInv, App.botReply. intros Htext Hk [Hc Ht].
  destruct (App.isBotTyping s); cbn; [auto|].
  rewrite !forallb_app, Hc, Ht. cbn. unfold App.cannedPending. cbn.
  rewrite Htext, Hk. auto.
Qed.

Lemma cannedInv_playSteps now steps :
  forallb App.cannedStep steps = true ->
  forall s, App.cannedInv s -> App.cannedInv (App.playSteps now steps s).
Proof.
  induction steps as [|st rest IH]; intros Hsteps s Hs; cbn [App.playSteps];
    [exact Hs|].
  cbn [forallb] in Hsteps. apply andb_true_iff in Hsteps as [Hst Hrest].
  unfold App.cannedStep in Hst.
  destruct (App.step_role st).
  - apply (IH Hrest), cannedInv_appendMessage_user, Hs.
  - pose proof (cannedInv_botReply (App.step_text st) rest now s Hst Hrest Hs)
      as Hb.
    destruct (App.botReply (App.step_text st) rest now s) as [[] s'];
      cbn [snd] in Hb; [apply (IH Hrest)|]; exact Hb.
Qed.

Lemma cannedInv_timerFire k now s :
  App.cannedInv s -> App.cannedInv (App.timerFire k now s).
Proof.
  intros [Hc Ht]. unfold App.timerFire.
  destruct (App.timers s !! k) as [p|] eqn:Ek; [|split; assumption].
  pose proof (forallb_lookup _ _ _ _ Ht Ek) as Hp.
  unfold App.cannedPending in Hp. apply andb_true_iff in Hp as [Hp1 Hp2].
  apply (cannedInv_playSteps now _ Hp2).
  unfold App.cannedInv. cbn. split.
  - rewrite forallb_app. unfold App.removeNode.
    rewrite (forallb_filter_keep _ _ _ Hc). cbn. rewrite Hp1. reflexivity.
  - apply forallb_delete, Ht.
Qed.

Lemma cannedInv_handleUserSend (toLowerCase : jsstring -> jsstring)
      raw now t pick s :
  App.cannedInv s ->
  App.cannedInv (snd (App.handleUserSend toLowerCase raw now t pick s)).
Proof.
  intros Hs. rewrite handleUserSend_eq. cbv zeta.
  destruct (bool_decide (trim raw = [])); [exact Hs|].
  assert (H1 : App.cannedInv (App.userMessageSent (trim raw) now t s)).
  { apply (cannedInv_frame (App.appendMessage App.user (trim raw) now s));
      try reflexivity.
    apply cannedInv_appendMessage_user, Hs. }
  repeat match goal with
         | |- context [if includes ?a ?b || includes ?c ?d then _ else _] =>
             destruct (includes a b || includes c d)
         end; cbn [snd].
  - apply cannedInv_botReply; [vm_compute; reflexivity|reflexivity|exact H1].
  - apply cannedInv_botReply; [vm_compute; reflexivity|reflexivity|exact H1].
  - pose proof (toggleTheme_frame (App.userMessageSent (trim raw) now t s))
      as (Hc & Ht & _).
    destruct (App.toggleTheme _) as [[[]|err] s2]; cbn [snd] in *.
    + apply cannedInv_botReply; [vm_compute; reflexivity|reflexivity|].
      eapply cannedInv_frame; eauto.
    + eapply cannedInv_frame; eauto.
  - apply cannedInv_botReply;
      [destruct pick; vm_compute; reflexivity|reflexivity|exact H1].
Qed.

Lemma cannedInv_step (toLowerCase : jsstring -> jsstring) e s :
  App.cannedInv s -> App.cannedInv (snd (App.step toLowerCase e s)).
Proof.
  intros Hs. destruct e as [|v|now t pick|key now|k now|st]; cbn [App.step].
  - pose proof (toggleTheme_frame s) as (?&?&_).
    eapply cannedInv_frame; eauto.
  - exact Hs.
  - unfold App.composerSubmit.
    pose proof (cannedInv_handleUserSend toLowerCase (App.messageValue s)
                  now t pick s Hs) as H.
    destruct (App.handleUserSend _ _ _ _ _ s) as [r s']. exact H.
  - unfold App.scriptClick, getProp.
    destruct (ownProp App.scripts key) as [steps|] eqn:Ek; cbn.
    + apply (cannedInv_playSteps now _ (scripts_are_canned _ _ Ek)), Hs.
    + destruct (bool_decide _); exact Hs.
  - apply cannedInv_timerFire, Hs.
  - exact Hs.
Qed.

(** X4. In every reachable state of [app.js] each bot message on display
    carries one of the texts written in the file (the greeting, a keyword
    reply, a fallback or a bot turn of a script): the bot never shows
    text taken from the user's input. *)
Theorem bot_messages_are_canned :
  forall (toLowerCase : jsstring -> jsstring) s text time,
    App.reachable toLowerCase s ->
    App.MessageRow App.bot text time ∈ App.chat s ->
    text ∈ App.botTexts.
Proof.
  intros toLowerCase s text time (st & now & es & s0 & Hstart & <-) Hin.
  assert (H0 : App.cannedInv s0).
  { unfold App.start, App.load in Hstart.
    destruct (getItem App.s_theme st) as [v|e]; [|discriminate].
    unfold App.init, bind, modify in Hstart.
    match type of Hstart with
    | context [App.applyTheme ?th ?s] =>
        pose proof (applyTheme_frame th s) as (Hc & Ht & _);
        destruct (App.applyTheme th s) as [[[]|e] s1]
    end; [|discriminate].
    cbn [snd] in *. injection Hstart as <-.
    unfold App.cannedInv. cbn. rewrite Hc, Ht. cbn. split; reflexivity. }
  clear Hstart.
  assert (H : App.cannedInv (App.run toLowerCase es s0)).
  { clear Hin. revert s0 H0.
    induction es as [|e es IH]; intros s0 H0; cbn [App.run];
      [exact H0|]. apply IH, cannedInv_step, H0. }
  destruct H as [Hc _].
  rewrite forallb_forall in Hc. apply list_elem_of_In in Hin.
  specialize (Hc _ Hin). cbn in Hc. apply bool_decide_eq_true_1 in Hc.
  exact Hc.
Qed.

Lemma bot_messages_are_canned_witness : App.greeting ∈ App.botTexts.
Proof.
  apply (bot_messages_are_canned caseless appComposing App.greeting t0).
  - apply appLive_reachable.
  - vm_compute. left.
Defined.

(** ** First demo: the theme *)

Lemma theme_botReply text k now s :
  let s' := snd (App.botReply text k now s) in
  App.theme s' = App.theme s /\ App.rootLight s' = App.rootLight s
  /\ App.storage s' = App.storage s.
Proof.
  unfold App.botReply. destruct (App.isBotTyping s); cbn; auto.
Qed.

Lemma theme_playSteps now steps :
  forall s,
    let s' := App.playSteps now steps s in
    App.theme s' = App.theme s /\ App.rootLight s' = App.rootLight s
    /\ App.storage s' = App.storage s.
Proof.
  induction steps as [|st rest IH]; intros s; cbn [App.playSteps]; [auto|].
  destruct (App.step_role st).
  - apply (IH (App.appendMessage App.user (App.step_text st) now s)).
  - pose proof (theme_botReply (App.step_text st) rest now s) as Hb.
    destruct (App.botReply (App.step_text st) rest now s) as [[] s'];
      cbn [snd] in Hb; [|exact Hb].
    destruct Hb as (<- & <- & <-). apply IH.
Qed.

Lemma theme_timerFire k now s :
  let s' := App.timerFire k now s in
  App.theme s' = App.theme s /\ App.rootLight s' = App.rootLight s
  /\ App.storage s' = App.storage s.
Proof.
  unfold App.timerFire. destruct (App.timers s !! k) as [p|]; [|auto].
  apply (theme_playSteps now (App.pending_steps p)
           (App.botReply_resume p now
              (App.set_timers (delete k (App.timers s)) s))).
Qed.

Lemma themeSync_applyTheme th s :
  App.themeSync (snd (App.applyTheme th s)).
Proof.
  destruct s as [t h b rl ch mv [it stt] tm nn].
  unfold App.themeSync, App.applyTheme, bind, modify, setItem. app_state.
  destruct stt; reflexivity.
Qed.

Lemma themeSync_frame (s s' : App.State) :
  App.theme s' = App.theme s -> App.rootLight s' = App.rootLight s ->
  App.themeSync s -> App.themeSync s'.
Proof. unfold App.themeSync. intros -> ->. exact id. Qed.

Lemma themeSync_handleUserSend (toLowerCase : jsstring -> jsstring)
      raw now t pick s :
  App.themeSync s ->
  App.themeSync (snd (App.handleUserSend toLowerCase raw now t pick s)).
Proof.
  intros Hs. rewrite handleUserSend_eq. cbv zeta.
  destruct (bool_decide (trim raw = [])); [exact Hs|].
  assert (H1 : App.themeSync (App.userMessageSent (trim raw) now t s))
    by exact Hs.
  repeat match goal with
         | |- context [if includes ?a ?b || includes ?c ?d then _ else _] =>
             destruct (includes a b || includes c d)
         end; cbn [snd];
    try (match goal with
         | |- App.themeSync (snd (App.botReply ?x ?k ?n ?s0)) =>
             destruct (theme_botReply x k n s0) as (Ht & Hr & _);
             apply (themeSync_frame s0 _ Ht Hr), H1
         end).
  pose proof (themeSync_applyTheme
                (if bool_decide
                      (App.theme (App.userMessageSent (trim raw) now t s)
                       = App.s_dark)
                 then App.s_light else App.s_dark)
                (App.userMessageSent (trim raw) now t s)) as H2.
  unfold App.toggleTheme.
  destruct (App.applyTheme _ _) as [[[]|err] s2]; cbn [snd] in *;
    [|exact H2].
  destruct (theme_botReply App.reply_theme [] now s2) as (Ht & Hr & _).
  apply (themeSync_frame s2 _ Ht Hr), H2.
Qed.

Lemma themeSync_step (toLowerCase : jsstring -> jsstring) e s :
  App.themeSync s -> App.themeSync (snd (App.step toLowerCase e s)).
Proof.
  intros Hs. destruct e as [|v|now t pick|key now|k now|st]; cbn [App.step].
  - apply themeSync_applyTheme.
  - exact Hs.
  - unfold App.composerSubmit.
    pose proof (themeSync_handleUserSend toLowerCase (App.messageValue s)
                  now t pick s Hs) as H.
    destruct (App.handleUserSend _ _ _ _ _ s) as [r s']. exact H.
  - unfold App.scriptClick.
    destruct (getProp App.scripts key); cbn; try exact Hs.
    destruct (theme_playSteps now a s) as (Ht & Hr & _).
    apply (themeSync_frame s _ Ht Hr), Hs.
  - cbn. destruct (theme_timerFire k now s) as (Ht & Hr & _).
    apply (themeSync_frame s _ Ht Hr), Hs.
  - exact Hs.
Qed.

(** X5. In every reachable state of [app.js] the root element carries
    the class [light] exactly when [state.theme] is ['light'], whatever
    the store did to the writes. *)
Theorem root_class_follows_theme :
  forall (toLowerCase : jsstring -> jsstring) s,
    App.reachable toLowerCase s ->
    App.rootLight s = bool_decide (App.theme s = App.s_light).
Proof.
  intros toLowerCase s (st & now & es & s0 & Hstart & <-).
  assert (H0 : App.themeSync s0).
  { unfold App.start, App.load in Hstart.
    destruct (getItem App.s_theme st) as [v|e]; [|discriminate].
    unfold App.init, bind, modify in Hstart.
    match type of Hstart with
    | context [App.applyTheme ?th ?s] =>
        pose proof (themeSync_applyTheme th s) as H;
        destruct (App.applyTheme th s) as [[[]|e] s1]
    end; [|discriminate].
    cbn [snd] in *. injection Hstart as <-. exact H. }
  clear Hstart. revert s0 H0.
  induction es as [|e es IH]; intros s0 H0; cbn [App.run]; [exact H0|].
  apply IH, themeSync_step, H0.
Qed.

Lemma root_class_follows_theme_witness :
  App.rootLight appStoreFull
  = bool_decide (App.theme appStoreFull = App.s_light).
Proof.
  apply (root_class_follows_theme caseless appStoreFull).
  apply appLive_reachable.
Defined.

(** X6. Two clicks on the theme toggle give back [dark] when the theme
    was [dark] and give [light] for every other value, and the root class
    follows; this holds whether or not the store accepts the writes. *)
Theorem two_toggles_restore_theme :
  forall s,
    let s2 := snd (App.toggleTheme (snd (App.toggleTheme s))) in
    App.theme (snd (App.toggleTheme s)) = App.otherTheme (App.theme s)
    /\ App.theme s2
       = (if bool_decide (App.theme s = App.s_dark)
          then App.s_dark else App.s_light)
    /\ App.rootLight s2 = negb (bool_decide (App.theme s = App.s_dark)).
Proof.
  intros s. cbv zeta.
  destruct s as [t h b rl ch mv [it stt] tm nn].
  unfold App.toggleTheme, App.applyTheme, App.otherTheme, bind, modify,
    setItem. app_state.
  destruct (bool_decide (t = App.s_dark)); destruct stt;
    cbn [fst snd status items]; app_state; cbn [fst snd status items];
    repeat split; vm_compute; reflexivity.
Qed.

(** X7. When the store accepts writes, the theme chosen by the toggle
    survives a reload: starting the page over the store left by
    [toggleTheme] gives a live page with the same theme and root class. *)
Theorem toggled_theme_survives_reload :
  forall s now,
    status (App.storage s) = StoreOk ->
    let s' := snd (App.toggleTheme s) in
    exists s0,
      App.start (App.storage s') now = Some s0
      /\ App.theme s0 = App.theme s'
      /\ App.rootLight s0 = App.rootLight s'.
Proof.
  intros s now Hok. cbv zeta.
  destruct s as [t h b rl ch mv [it stt] tm nn]. cbn in Hok. subst stt.
  unfold App.toggleTheme, App.applyTheme, bind, modify, setItem. app_state.
  cbn [fst snd status items]. app_state.
  unfold App.start, App.load, getItem. cbn [status items].
  rewrite lookup_insert_eq.
  destruct (bool_decide (t = App.s_dark)).
  - eexists. split; [vm_compute; reflexivity|]. split; reflexivity.
  - eexists. split; [vm_compute; reflexivity|]. split; reflexivity.
Qed.

Lemma toggled_theme_survives_reload_witness :
  exists s0,
    App.start (App.storage (snd (App.toggleTheme appLive))) t1 = Some s0
    /\ App.theme s0 = App.theme (snd (App.toggleTheme appLive))
    /\ App.rootLight s0 = App.rootLight (snd (App.toggleTheme appLive)).
Proof.
  apply (toggled_theme_survives_reload appLive t1). reflexivity.
Defined.

(** ** First demo: the whole keyword dispatch *)

(** X8. For a message with non-empty trimmed text, [handleUserSend]
    picks the reply by the first category that matches, in the order
    pricing, help, theme, and otherwise the fallback drawn from the
    pool; the theme is toggled exactly when the theme category is the
    first to match, so a message that also asks for the price or for
    help leaves the theme alone. *)
Theorem keyword_dispatch :
  forall (toLowerCase : jsstring -> jsstring) s raw now t pick,
    trim raw <> [] ->
    let lower := toLowerCase (trim raw) in
    let price := includes lower App.kw_price1 || includes lower App.kw_price2 in
    let help := includes lower App.kw_help1 || includes lower App.kw_help2 in
    let themeKw :=
      includes lower App.kw_theme1 || includes lower App.kw_theme2 in
    let out := App.handleUserSend toLowerCase raw now t pick s in
    let s' := snd out in
    App.theme s' = (if negb price && negb help && themeKw
                    then App.otherTheme (App.theme s) else App.theme s)
    /\ if App.isBotTyping s
       then App.timers s' = App.timers s
       else match fst out with
            | Ok _ =>
              map App.pending_text (App.timers s')
              = map App.pending_text (App.timers s)
                  ++ [if price then App.reply_price
                      else if help then App.reply_help
                      else if themeKw then App.reply_theme
                      else App.fallbacks pick]
            | Throw _ => App.timers s' = App.timers s
            end.
Proof.
  intros toLowerCase s raw now t pick Hne. cbv zeta.
  rewrite handleUserSend_eq. cbv zeta.
  rewrite bool_decide_eq_false_2 by exact Hne.
  destruct s as [th h b rl ch mv [it stt] tm nn].
  unfold App.userMessageSent, App.botReply, App.toggleTheme, App.otherTheme,
    App.applyTheme, bind, modify, setItem.
  app_state.
  destruct (includes _ App.kw_price1 || includes _ App.kw_price2);
    destruct (includes _ App.kw_help1 || includes _ App.kw_help2);
    destruct (includes _ App.kw_theme1 || includes _ App.kw_theme2);
    destruct b; destruct stt;
    cbn [fst snd status items app negb andb]; app_state;
    cbn [fst snd app];
    (split; [reflexivity|]); rewrite ?map_app; reflexivity.
Qed.

Lemma keyword_dispatch_witness :
  App.theme
    (snd (App.handleUserSend caseless priceQuestion t1 1000 App.Pick2 appLive))
  = App.theme appLive.
Proof.
  apply (keyword_dispatch caseless appLive priceQuestion t1 1000 App.Pick2).
  vm_compute. discriminate.
Defined.

(** ** First demo: a reply cycle ends *)

Lemma typingIds_messageRows (rows : list App.Row) :
  App.typingIds (App.messageRows rows) = [].
Proof.
  unfold App.messageRows.
  induction rows as [|[r t n|i n] rows IH]; cbn [List.filter App.typingIds];
    auto.
Qed.

Lemma messageRows_no_typing (rows : list App.Row) :
  App.typingIds rows = [] -> App.messageRows rows = rows.
Proof.
  unfold App.messageRows.
  induction rows as [|[r t n|i n] rows IH]; cbn [List.filter App.typingIds];
    intros H; [reflexivity| |discriminate].
  rewrite (IH H). reflexivity.
Qed.

Lemma removeNode_single id (rows : list App.Row) :
  App.typingIds rows = [id] -> App.removeNode id rows = App.messageRows rows.
Proof.
  unfold App.removeNode, App.messageRows.
  induction rows as [|[r t n|i n] rows IH]; cbn [List.filter App.typingIds];
    intros H; [reflexivity| |].
  - rewrite (IH H). reflexivity.
  - injection H as -> H. rewrite Nat.eqb_refl. cbn [negb].
    fold (App.removeNode id rows). fold (App.messageRows rows).
    rewrite (removeNode_no_typing id rows H), (messageRows_no_typing rows H).
    reflexivity.
Qed.

(** X9. No reply cycle of [app.js] stays open: in a reachable state that
    is composing there is exactly one scheduled timeout, and once the
    timer has fired for it and for each bot turn the awaiting script
    still holds, the page is idle again and shows the messages that were
    on display, then the pending reply, then the remaining turns of the
    script, with no typing indicator left. *)
Theorem reply_cycle_completes :
  forall (toLowerCase : jsstring -> jsstring) s,
    App.reachable toLowerCase s ->
    App.isBotTyping s = true ->
    exists p,
      App.timers s = [p]
      /\ forall nows,
           length nows = S (App.botTurns (App.pending_steps p)) ->
           exists final,
             last (App.fireAll nows s) = Some final
             /\ App.isBotTyping final = false
             /\ App.timers final = []
             /\ App.visuals final
                = map App.visual (App.messageRows (App.chat s))
                    ++ App.VMessage App.bot (App.pending_text p)
                    :: map App.shown (App.pending_steps p).
Proof.
  intros toLowerCase s Hs Hb. apply cycleInv_reachable in Hs.
  unfold App.cycleInv in Hs. rewrite Hb in Hs. destruct Hs as (p & Ht & Hc).
  exists p. split; [exact Ht|]. intros [|n ns] Hn; [discriminate|].
  injection Hn as Hn. cbn [App.fireAll].
  set (r := App.botReply_resume p n (App.set_timers [] s)).
  assert (Ef : App.timerFire 0 n s = App.playSteps n (App.pending_steps p) r).
  { unfold App.timerFire. rewrite Ht. reflexivity. }
  rewrite Ef.
  assert (Hchat : App.chat r
                  = App.messageRows (App.chat s)
                      ++ [App.MessageRow App.bot (App.pending_text p) n]).
  { unfold r. cbn. rewrite (removeNode_single _ _ Hc). reflexivity. }
  destruct (playSteps_trace (App.pending_steps p) r n ns) as (Hv & final & Hl & Hfb & Hft);
    try reflexivity; try exact Hn.
  { rewrite Hchat, typingIds_app, typingIds_messageRows. reflexivity. }
  exists final. split; [exact Hl|]. split; [exact Hfb|]. split; [exact Hft|].
  pose proof (expectedDisplays_last (App.pending_steps p) (App.visuals r))
    as He.
  cbv zeta in Hv, Hl. rewrite <- Hv in He.
  change (map ?f ?l) with (f <$> l) in He. rewrite fmap_last, Hl in He.
  injection He as He. rewrite He. unfold App.visuals at 1.
  rewrite Hchat, map_app, <- app_assoc. reflexivity.
Qed.

Lemma reply_cycle_completes_witness :
  exists p, App.timers appComposing = [p].
Proof.
  destruct (reply_cycle_completes caseless appComposing) as (p & Hp & _).
  - apply appLive_reachable.
  - reflexivity.
  - exists p. exact Hp.
Defined.

(** ** Second demo: theme and preset controls *)

Lemma page_setTheme_sync th s : Page.themeInSync (snd (Page.setTheme th s)).
Proof.
  destruct s as [pr t ms bl sw lb pb me mi [it stt] tm nn].
  unfold Page.themeInSync, Page.setTheme, bind, modify, try_catch,
    Page.store, setItem.
  page_state. destruct stt; destruct (bool_decide (th = Page.s_light));
    repeat split; reflexivity.
Qed.

Lemma page_setTheme_presets th s :
  let s' := snd (Page.setTheme th s) in
  Page.preset s' = Page.preset s
  /\ Page.presetButtons s' = Page.presetButtons s
  /\ Page.messagesEl s' = Page.messagesEl s
  /\ Page.nextNode s' = Page.nextNode s.
Proof.
  destruct s as [pr t ms bl sw lb pb me mi [it stt] tm nn].
  unfold Page.setTheme, bind, modify, try_catch, Page.store, setItem.
  page_state. destruct stt; repeat split; reflexivity.
Qed.

Lemma page_setPreset_effect p s :
  let s' := snd (Page.setPreset p s) in
  Page.preset s' = p
  /\ Page.presetButtons s'
     = map (fun b => (fst b, bool_decide (fst b = p))) (Page.presetButtons s)
  /\ Page.theme s' = Page.theme s
  /\ Page.bodyLight s' = Page.bodyLight s
  /\ Page.themeSwitch s' = Page.themeSwitch s
  /\ Page.themeLabel s' = Page.themeLabel s
  /\ Page.messagesEl s' = Page.messagesEl s
  /\ Page.nextNode s' = Page.nextNode s.
Proof.
  destruct s as [pr t ms bl sw lb pb me mi [it stt] tm nn].
  unfold Page.setPreset, bind, modify, try_catch, Page.store, setItem.
  page_state. destruct stt; repeat split; reflexivity.
Qed.

Lemma page_timerFire_frame k now s :
  let s' := snd (Page.timerFire k now s) in
  Page.preset s' = Page.preset s
  /\ Page.presetButtons s' = Page.presetButtons s
  /\ Page.theme s' = Page.theme s
  /\ Page.bodyLight s' = Page.bodyLight s
  /\ Page.themeSwitch s' = Page.themeSwitch s
  /\ Page.themeLabel s' = Page.themeLabel s
  /\ Page.nextNode s' = Page.nextNode s.
Proof.
  unfold Page.timerFire.
  destruct (Page.timers s !! k) as [[ty ut d|]|]; cbn; try tauto.
  unfold Page.simulateBotReply_resume. cbn.
  destruct (Page.behaviorReply _ _); cbn; tauto.
Qed.

Lemma page_composerSubmit_frame now rnd s :
  let s' := Page.composerSubmit now rnd s in
  Page.preset s' = Page.preset s
  /\ Page.presetButtons s' = Page.presetButtons s
  /\ Page.theme s' = Page.theme s
  /\ Page.bodyLight s' = Page.bodyLight s
  /\ Page.themeSwitch s' = Page.themeSwitch s
  /\ Page.themeLabel s' = Page.themeLabel s.
Proof.
  unfold Page.composerSubmit. destruct (bool_decide _); cbn; tauto.
Qed.

Lemma page_themeInSync_frame (s s' : Page.State) :
  Page.theme s' = Page.theme s -> Page.bodyLight s' = Page.bodyLight s ->
  Page.themeSwitch s' = Page.themeSwitch s ->
  Page.themeLabel s' = Page.themeLabel s ->
  Page.themeInSync s -> Page.themeInSync s'.
Proof. unfold Page.themeInSync. intros -> -> -> ->. exact id. Qed.

Lemma page_presetInSync_frame (s s' : Page.State) :
  Page.preset s' = Page.preset s ->
  Page.presetButtons s' = Page.presetButtons s ->
  Page.presetInSync s -> Page.presetInSync s'.
Proof. unfold Page.presetInSync. intros -> ->. exact id. Qed.

Lemma page_setPreset_sync p s : Page.presetInSync (snd (Page.setPreset p s)).
Proof.
  destruct (page_setPreset_effect p s) as (Hp & Hb & _).
  unfold Page.presetInSync. rewrite Hp, Hb. clear Hp Hb.
  induction (Page.presetButtons s) as [|b l IH]; cbn [map];
    [constructor|]. constructor; [reflexivity|exact IH].
Qed.

Lemma page_controls_step e s :
  Page.themeInSync s /\ Page.presetInSync s ->
  let s' := snd (Page.step e s) in
  Page.themeInSync s' /\ Page.presetInSync s'
  /\ map fst (Page.presetButtons s') = map fst (Page.presetButtons s).
Proof.
  intros [Ht Hp]. cbv zeta.
  destruct e as [v|now rnd| |p|c|k now|st]; cbn [Page.step].
  - cbn. auto.
  - cbn [modify snd].
    destruct (page_composerSubmit_frame now rnd s) as (H1&H2&H3&H4&H5&H6).
    split; [eapply page_themeInSync_frame; eauto|].
    split; [eapply page_presetInSync_frame; eauto|]. rewrite H2. reflexivity.
  - cbn. auto.
  - destruct (page_setPreset_effect p s) as (H1&H2&H3&H4&H5&H6&_).
    split; [eapply page_themeInSync_frame; eauto|].
    split; [apply page_setPreset_sync|].
    rewrite H2, map_map. reflexivity.
  - destruct (page_setTheme_presets
                (if c then Page.s_light else Page.s_dark) s) as (H1&H2&_).
    split; [apply page_setTheme_sync|].
    split; [eapply page_presetInSync_frame; eauto|]. rewrite H2. reflexivity.
  - destruct (page_timerFire_frame k now s) as (H1&H2&H3&H4&H5&H6&_).
    split; [eapply page_themeInSync_frame; eauto|].
    split; [eapply page_presetInSync_frame; eauto|]. rewrite H2. reflexivity.
  - cbn. auto.
Qed.

Lemma page_controls_start st btns now :
  let s := snd (Page.start st btns now) in
  Page.themeInSync s /\ Page.presetInSync s
  /\ map fst (Page.presetButtons s) = btns.
Proof.
  cbv zeta. unfold Page.start, Page.boot. cbv zeta.
  destruct (Page.restore (Page.storage (Page.initial st btns))) as [th p].
  cbn [fst snd]. unfold bind.
  pose proof (page_messages_setTheme th (Page.initial st btns)) as [Hok _].
  pose proof (page_setTheme_sync th (Page.initial st btns)) as Hsync.
  pose proof (page_setTheme_presets th (Page.initial st btns)) as (_&Hb&_).
  destruct (Page.setTheme th (Page.initial st btns)) as [r1 s1].
  cbn [fst snd] in *. subst r1.
  pose proof (page_messages_setPreset p s1) as [Hok2 _].
  pose proof (page_setPreset_effect p s1) as (H1&H2&H3&H4&H5&H6&_).
  pose proof (page_setPreset_sync p s1) as Hps.
  destruct (Page.setPreset p s1) as [r2 s2]. cbn [fst snd] in *. subst r2.
  unfold modify. cbn [snd].
  split; [|split].
  - apply (page_themeInSync_frame s1); try assumption; reflexivity.
  - apply (page_presetInSync_frame s2); [reflexivity|reflexivity|exact Hps].
  - cbn. rewrite H2, map_map, Hb. cbn. rewrite map_map. cbn. apply map_id.
Qed.

(** X10. In every reachable state of the second demo [state.theme] is
    ['light'] or ['dark'], and the body class, the checkbox and the label
    of the theme switch agree with it. *)
Theorem page_theme_controls_agree :
  forall st btns now es,
    let s := Page.run es (snd (Page.start st btns now)) in
    Page.theme s = (if Page.bodyLight s then Page.s_light else Page.s_dark)
    /\ Page.themeSwitch s = Page.bodyLight s
    /\ Page.themeLabel s
       = (if Page.bodyLight s then Page.label_light else Page.label_dark).
Proof.
  intros st btns now es. cbv zeta.
  destruct (page_controls_start st btns now) as (H0 & H1 & _).
  generalize dependent (snd (Page.start st btns now)).
  induction es as [|e es IH]; intros s0 H0 H1; cbn [Page.run]; [exact H0|].
  destruct (page_controls_step e s0 (conj H0 H1)) as (H2 & H3 & _).
  apply IH; assumption.
Qed.

(** X11. In every reachable state of the second demo the preset buttons
    are those of the document, and a button is marked active exactly
    when its [data-preset] is the current preset; a preset that no button
    names leaves all of them inactive. *)
Theorem page_active_preset_button :
  forall st btns now es,
    let s := Page.run es (snd (Page.start st btns now)) in
    map fst (Page.presetButtons s) = btns
    /\ Forall (fun b => snd b = bool_decide (fst b = Page.preset s))
              (Page.presetButtons s).
Proof.
  intros st btns now es. cbv zeta.
  destruct (page_controls_start st btns now) as (H0 & H1 & H2).
  generalize dependent (snd (Page.start st btns now)).
  induction es as [|e es IH]; intros s0 H0 H1 H2; cbn [Page.run];
    [split; assumption|].
  destruct (page_controls_step e s0 (conj H0 H1)) as (H3 & H4 & H5).
  apply IH; try assumption. rewrite H5. exact H2.
Qed.

(** ** Second demo: replies take the place of their typing indicator *)

Lemma page_typingIds_app (a b : list Page.Row) :
  Page.typingIds (a ++ b) = Page.typingIds a ++ Page.typingIds b.
Proof.
  induction a as [|[r c t|i] a IH]; cbn [app Page.typingIds];
    rewrite ?IH; reflexivity.
Qed.

Lemma page_typingIds_lookup (rows : list Page.Row) i id :
  rows !! i = Some (Page.TypingRow id) -> id ∈ Page.typingIds rows.
Proof.
  revert i. induction rows as [|[r c t|j] rows IH]; intros i;
    [destruct i; discriminate| |].
  - destruct i as [|i]; [discriminate|]. cbn. apply IH.
  - destruct i as [|i]; cbn.
    + intros [= ->]. left.
    + intros H. right. apply (IH i H).
Qed.

Lemma page_typingIds_replaceNode id r c t (rows : list Page.Row) :
  Page.typingIds (Page.replaceNode id (Page.MessageRow r c t) rows)
    `sublist_of` Page.typingIds rows.
Proof.
  induction rows as [|[r' c' t'|j] rows IH]; cbn [Page.replaceNode Page.typingIds];
    [reflexivity|exact IH|].
  destruct (Nat.eqb j id); cbn [Page.typingIds].
  - apply sublist_cons. reflexivity.
  - apply sublist_skip, IH.
Qed.

Lemma page_replaceNode_length id new (rows : list Page.Row) :
  length (Page.replaceNode id new rows) = length rows.
Proof.
  induction rows as [|[r' c' t'|j] rows IH]; cbn [Page.replaceNode length];
    [reflexivity|rewrite IH; reflexivity|].
  destruct (Nat.eqb j id); cbn [length]; rewrite ?IH; reflexivity.
Qed.

Lemma page_replaceNode_insert id new (rows : list Page.Row) :
  NoDup (Page.typingIds rows) ->
  forall i, rows !! i = Some (Page.TypingRow id) ->
            Page.replaceNode id new rows = <[i := new]> rows.
Proof.
  induction rows as [|[r' c' t'|j] rows IH]; intros Hnd i Hi;
    [destruct i; discriminate| |].
  - destruct i as [|i]; [discriminate|]. cbn in *. rewrite (IH Hnd i Hi).
    reflexivity.
  - cbn [Page.typingIds] in Hnd. apply NoDup_cons in Hnd as [Hj Hnd].
    destruct i as [|i]; cbn in Hi |- *.
    + injection Hi as ->. rewrite Nat.eqb_refl. reflexivity.
    + destruct (Nat.eqb_spec j id) as [->|Hne].
      * contradiction Hj. apply (page_typingIds_lookup rows i id Hi).
      * rewrite (IH Hnd i Hi). reflexivity.
Qed.

Lemma page_typingFresh_frame (s s' : Page.State) :
  Page.messagesEl s' = Page.messagesEl s -> Page.nextNode s' = Page.nextNode s ->
  Page.typingFresh s -> Page.typingFresh s'.
Proof. unfold Page.typingFresh. intros -> ->. exact id. Qed.

Lemma page_typingFresh_step e s :
  Page.typingFresh s -> Page.typingFresh (snd (Page.step e s)).
Proof.
  intros Hs. destruct e as [v|now rnd| |p|c|k now|st]; cbn [Page.step].
  - exact Hs.
  - cbn [modify snd]. unfold Page.composerSubmit.
    destruct (bool_decide _); [exact Hs|].
    destruct Hs as [Hnd Hlt]. unfold Page.typingFresh. cbn.
    rewrite <- app_assoc, page_typingIds_app. cbn. split.
    + apply NoDup_app. split; [exact Hnd|]. split; [|apply NoDup_singleton].
      intros i Hi [->|[]%elem_of_nil]%elem_of_cons.
      rewrite Forall_forall in Hlt. specialize (Hlt _ Hi). lia.
    + apply Forall_app. split.
      * eapply Forall_impl; [exact Hlt|]. cbn. intros; lia.
      * constructor; [lia|constructor].
  - unfold Page.typingFresh. cbn. split; constructor.
  - destruct (page_setPreset_effect p s) as (_&_&_&_&_&_&H1&H2).
    apply (page_typingFresh_frame s _ H1 H2 Hs).
  - destruct (page_setTheme_presets (if c then Page.s_light else Page.s_dark) s)
      as (_&_&H1&H2).
    apply (page_typingFresh_frame s _ H1 H2 Hs).
  - unfold Page.timerFire.
    destruct (Page.timers s !! k) as [[ty ut d|]|]; cbn; try exact Hs.
    unfold Page.simulateBotReply_resume. cbn.
    destruct (Page.behaviorReply _ _) as [v|err]; cbn; [|exact Hs].
    destruct Hs as [Hnd Hlt]. unfold Page.typingFresh. cbn.
    pose proof (page_typingIds_replaceNode ty Page.bot v now (Page.messagesEl s))
      as Hsub.
    split; [eapply sublist_NoDup; eauto|].
    rewrite Forall_forall in Hlt |- *. intros i Hi. apply Hlt.
    eapply sublist_subseteq; eauto.
  - exact Hs.
Qed.

Lemma page_typingFresh_reachable st btns now es :
  Page.typingFresh (Page.run es (snd (Page.start st btns now))).
Proof.
  assert (H0 : Page.typingFresh (snd (Page.start st btns now))).
  { unfold Page.start, Page.boot. cbv zeta.
    destruct (Page.restore _) as [th p]. cbn [fst snd]. unfold bind.
    pose proof (page_messages_setTheme th (Page.initial st btns)) as [Hok _].
    pose proof (page_setTheme_presets th (Page.initial st btns)) as (_&_&H1&H2).
    destruct (Page.setTheme th (Page.initial st btns)) as [r1 s1].
    cbn [fst snd] in *. subst r1.
    pose proof (page_messages_setPreset p s1) as [Hok2 _].
    pose proof (page_setPreset_effect p s1) as (_&_&_&_&_&_&H3&H4).
    destruct (Page.setPreset p s1) as [r2 s2]. cbn [fst snd] in *. subst r2.
    unfold modify, Page.typingFresh. cbn. rewrite H3, H1. cbn.
    split; constructor. }
  generalize dependent (snd (Page.start st btns now)).
  induction es as [|e es IH]; intros s0 H0; cbn [Page.run]; [exact H0|].
  apply IH, page_typingFresh_step, H0.
Qed.

(** X12. In a reachable state of the second demo, when the timer of a
    pending reply fires and the typing indicator of that reply is still
    on display, the bot message takes the indicator's place and every
    other row stays where it is.  The reply is computed from the preset
    selected at that moment, not at the time of sending, and the short
    scroll timer is scheduled. *)
Theorem reply_replaces_its_indicator :
  forall st btns now es k now' id text d v i,
    let s := Page.run es (snd (Page.start st btns now)) in
    Page.timers s !! k = Some (Page.ReplyTimer id text d) ->
    Page.behaviorReply (Page.preset s) text = Ok v ->
    Page.messagesEl s !! i = Some (Page.TypingRow id) ->
    let out := Page.step (Page.TimerFire k now') s in
    fst out = Ok tt
    /\ Page.messagesEl (snd out)
       = <[i := Page.MessageRow Page.bot v now']> (Page.messagesEl s)
    /\ Page.timers (snd out) = delete k (Page.timers s) ++ [Page.ScrollTimer].
Proof.
  intros st btns now es k now' id text d v i s Hk Hv Hi. cbv zeta.
  destruct (page_typingFresh_reachable st btns now es) as [Hnd _]. fold s in Hnd.
  cbn [Page.step]. unfold Page.timerFire. rewrite Hk.
  unfold Page.simulateBotReply_resume. cbn [Page.preset Page.set_timers].
  replace (Page.preset (Page.set_timers (delete k (Page.timers s)) s))
    with (Page.preset s) by reflexivity.
  rewrite Hv. cbn.
  rewrite (page_replaceNode_insert id _ _ Hnd i Hi). repeat split.
Qed.

Lemma reply_replaces_its_indicator_witness :
  Page.messagesEl (snd (Page.step (Page.TimerFire 0 t2) pageComposing))
  = <[2%nat := Page.MessageRow Page.bot
                 (Page.VString (Page.friendly [97])) t2]>
      (Page.messagesEl pageComposing).
Proof.
  pose proof (reply_replaces_its_indicator emptyStore [] t0
                [Page.MessageInput [97]; Page.ComposerSubmit t1 0]
                0%nat t2 0%nat [97] 500 (Page.VString (Page.friendly [97]))
                2%nat) as H.
  cbv zeta in H. rewrite pageLive_start in H.
  change (Page.run _ pageLive) with pageComposing in H.
  apply H; vm_compute; reflexivity.
Defined.

(** X13. In the second demo a timer never changes the number of rows on
    display, and a reply that is pending when the chat is reset is lost:
    after [resetChat], whatever timers fire, the display stays empty. *)
Theorem timers_keep_row_count :
  forall s,
    (forall k now,
        length (Page.messagesEl (snd (Page.step (Page.TimerFire k now) s)))
        = length (Page.messagesEl s))
    /\ (forall fires,
           Page.messagesEl
             (Page.run (map (fun f => Page.TimerFire (fst f) (snd f)) fires)
                       (Page.resetChat s))
           = []).
Proof.
  assert (Hlen : forall s k now,
             length (Page.messagesEl (snd (Page.step (Page.TimerFire k now) s)))
             = length (Page.messagesEl s)).
  { intros s k now. cbn [Page.step]. unfold Page.timerFire.
    destruct (Page.timers s !! k) as [[ty ut d|]|]; cbn; try reflexivity.
    unfold Page.simulateBotReply_resume. cbn.
    destruct (Page.behaviorReply _ _); cbn; [|reflexivity].
    apply page_replaceNode_length. }
  intros s. split; [apply Hlen|].
  intros fires. assert (H0 : Page.messagesEl (Page.resetChat s) = [])
    by reflexivity.
  generalize dependent (Page.resetChat s).
  induction fires as [|[k now] fires IH]; intros s0 H0; cbn [map Page.run];
    [exact H0|].
  apply IH. apply length_zero_iff_nil. cbn [fst snd].
  rewrite Hlen, H0. reflexivity.
Qed.

(** ** Second demo: settings survive a reload *)

Lemma page_keys_differ : Page.s_chat_preset <> Page.s_chat_theme.
Proof. vm_compute. discriminate. Qed.

(** X14. When the store accepts writes, the theme and a non-empty preset
    set through [setTheme] and [setPreset] are what [boot] restores on
    the next load: the reloaded page has the same theme and preset. *)
Theorem page_settings_survive_reload :
  forall s th p btns now,
    status (Page.storage s) = StoreOk ->
    p <> [] ->
    let s' := snd (Page.setPreset p (snd (Page.setTheme th s))) in
    let s0 := snd (Page.start (Page.storage s') btns now) in
    Page.preset s0 = p /\ Page.theme s0 = Page.theme s'.
Proof.
  intros s th p btns now Hok Hp. cbv zeta.
  unfold Page.start.
  match goal with
  | |- context [Page.boot now ?i] =>
      destruct (page_boot_fields now i) as [Hth Hpr]
  end.
  cbn [Page.initial Page.storage] in Hth, Hpr. rewrite Hth, Hpr.
  destruct s as [pr t ms bl sw lb pb me mi [it stt] tm nn].
  cbn in Hok. subst stt.
  unfold Page.setPreset, Page.setTheme, bind, modify, try_catch, Page.store,
    setItem.
  page_state. cbn [fst snd status items]. page_state.
  unfold Page.restore, getItem. cbn [status items].
  rewrite (lookup_insert_ne _ _ _ _ page_keys_differ), !lookup_insert_eq.
  destruct p as [|c r]; [contradiction Hp; reflexivity|].
  destruct (bool_decide (th = Page.s_light)); cbn [fst snd];
    split; vm_compute; reflexivity.
Qed.

Lemma page_settings_survive_reload_witness :
  Page.preset
    (snd (Page.start
            (Page.storage
               (snd (Page.setPreset Page.s_concise
                       (snd (Page.setTheme Page.s_light pageLive)))))
            [] t1))
  = Page.s_concise.
Proof.
  apply (page_settings_survive_reload pageLive Page.s_light Page.s_concise
           [] t1).
  - reflexivity.
  - discriminate.
Defined.

(** ** [escapeHtml] *)

Lemma escapeHtml_app (a b : jsstring) :
  Page.escapeHtml (a ++ b) = Page.escapeHtml a ++ Page.escapeHtml b.
Proof. rewrite !escapeHtml_units. apply flat_map_app. Qed.

Lemma escapeUnit_cases c :
  (Page.isSpecial c = true
   /\ (length (Page.escapeUnit c) > 1)%nat)
  \/ (Page.isSpecial c = false /\ Page.escapeUnit c = [c]).
Proof.
  unfold Page.isSpecial, Page.escapeUnit.
  destruct (c =? Page.amp); [left; split; [reflexivity|vm_compute; lia]|].
  destruct (c =? Page.lt); [left; split; [reflexivity|vm_compute; lia]|].
  destruct (c =? Page.gt); [left; split; [reflexivity|vm_compute; lia]|].
  right. split; reflexivity.
Qed.

(** X15. [escapeHtml] works code unit by code unit: it distributes over
    concatenation, it never shortens a text, and it changes a text
    exactly when the text holds one of [&], [<], [>], in which case the
    result is longer. *)
Theorem escapeHtml_shape :
  forall (a b : jsstring),
    Page.escapeHtml (a ++ b) = Page.escapeHtml a ++ Page.escapeHtml b
    /\ (length a <= length (Page.escapeHtml a))%nat
    /\ if existsb Page.isSpecial a
       then (length a < length (Page.escapeHtml a))%nat
       else Page.escapeHtml a = a.
Proof.
  intros a b. split; [apply escapeHtml_app|].
  rewrite escapeHtml_units.
  induction a as [|c r [IH1 IH2]]; [split; [reflexivity|reflexivity]|].
  cbn [flat_map existsb]. rewrite length_app. cbn [length].
  destruct (escapeUnit_cases c) as [[-> Hl]|[-> ->]]; cbn [orb].
  - split; lia.
  - cbn [length app]. split; [lia|].
    destruct (existsb Page.isSpecial r); [lia|]. rewrite IH2. reflexivity.
Qed.

Lemma entities_units :
  lit "&amp;" = [38; 97; 109; 112; 59]
  /\ lit "&lt;" = [38; 108; 116; 59]
  /\ lit "&gt;" = [38; 103; 116; 59].
Proof. vm_compute. repeat split; reflexivity. Qed.

Lemma unescape_unit c (rest : jsstring) :
  Page.unescape_from 0 (Page.escapeUnit c ++ rest)
  = c :: Page.unescape_from 0 rest.
Proof.
  destruct entities_units as (Ea & El & Eg).
  unfold Page.escapeUnit. rewrite Ea, El, Eg.
  destruct (Z.eqb_spec c Page.amp) as [->|H1]; [reflexivity|].
  destruct (Z.eqb_spec c Page.lt) as [->|H2]; [reflexivity|].
  destruct (Z.eqb_spec c Page.gt) as [->|H3]; [reflexivity|].
  cbn [app Page.unescape_from].
  destruct (Z.eqb_spec c Page.amp); [contradiction|]. reflexivity.
Qed.

Lemma unescape_escapeHtml (s : jsstring) :
  Page.unescape_from 0 (Page.escapeHtml s) = s.
Proof.
  rewrite escapeHtml_units.
  induction s as [|c r IH]; [reflexivity|].
  cbn [flat_map]. rewrite unescape_unit, IH. reflexivity.
Qed.

(** X16. [escapeHtml] loses nothing: two different texts never render
    to the same escaped text. *)
Theorem escapeHtml_is_injective :
  forall (a b : jsstring),
    Page.escapeHtml a = Page.escapeHtml b -> a = b.
Proof.
  intros a b H.
  rewrite <- (unescape_escapeHtml a), <- (unescape_escapeHtml b), H.
  reflexivity.
Qed.

Lemma escapeHtml_is_injective_witness : [60; 38; 62] = [60; 38; 62] :> jsstring.
Proof. apply (escapeHtml_is_injective [60; 38; 62] [60; 38; 62]). reflexivity. Defined.

(** ** Identifiers outside the tables *)

(** X17. An identifier that is neither a key of the table nor a property
    name inherited from [Object.prototype] gets the fallback: such a
    script key plays nothing and changes nothing, and with such a preset
    the reply is the one of [friendly]. *)
Theorem unknown_identifier_falls_back :
  forall key,
    key ∉ objectPrototypeKeys ->
    (ownProp App.scripts key = None ->
     forall now s, App.scriptClick key now s = (Ok tt, s))
    /\ (ownProp Page.PRESET_BEHAVIORS key = None ->
        forall text,
          Page.behaviorReply key text = Ok (Page.VString (Page.friendly text))).
Proof.
  intros key Hproto. split.
  - intros Hown now s. apply unknown_script_plays_nothing; assumption.
  - intros Hown text. apply unknown_preset_replies_friendly; assumption.
Qed.

Lemma unknown_identifier_falls_back_witness :
  App.scriptClick hello t1 appLive = (Ok tt, appLive)
  /\ Page.behaviorReply hello thanks
     = Ok (Page.VString (Page.friendly thanks)).
Proof.
  destruct (unknown_identifier_falls_back hello) as [Hs Hp].
  - vm_compute. intros H. repeat (apply elem_of_cons in H as [H|H];
      [discriminate|]). apply elem_of_nil in H. exact H.
  - split; [apply Hs|apply Hp]; vm_compute; reflexivity.
Defined.

(** ** Preset replies quote the user *)

Lemma startsWith_app (pat rest : jsstring) : startsWith pat (pat ++ rest) = true.
Proof.
  induction pat as [|c pat IH]; [reflexivity|].
  cbn [app startsWith]. rewrite Z.eqb_refl, IH. reflexivity.
Qed.

Lemma includes_app (a pat b : jsstring) : includes (a ++ pat ++ b) pat = true.
Proof.
  induction a as [|c a IH].
  - cbn [app]. destruct (pat ++ b) eqn:E; cbn [includes];
      rewrite <- E, startsWith_app; reflexivity.
  - cbn [app includes]. rewrite IH. apply orb_true_r.
Qed.

(** X18. Every reply of the preset table quotes the user's text in
    full, and the bot message built from it holds the escaped text in
    its markup. *)
Theorem preset_reply_quotes_text :
  forall p f text time now,
    ownProp Page.PRESET_BEHAVIORS p = Some f ->
    includes (f text) text = true
    /\ includes
         (Page.innerHTML
            (Page.createMessageEl Page.bot (Page.VString (f text)) time now))
         (Page.escapeHtml text)
       = true.
Proof.
  intros p f text time now Hf.
  assert (Hshape : exists pre post, f text = pre ++ text ++ post).
  { unfold Page.PRESET_BEHAVIORS in Hf. cbn [ownProp] in Hf.
    repeat (destruct (bool_decide _) in Hf;
            [injection Hf as <-;
             first [ eexists _, _; reflexivity
                   | exists [], Page.concise_post; reflexivity ]|]).
    discriminate. }
  destruct Hshape as (pre & post & E). rewrite E. split.
  - apply includes_app.
  - unfold Page.createMessageEl. cbn [Page.innerHTML Page.toString].
    rewrite !escapeHtml_app.
    rewrite (app_assoc (Page.markup_before Page.bot)), <- !app_assoc.
    rewrite (app_assoc (Page.markup_before Page.bot)).
    apply includes_app.
Qed.

Lemma preset_reply_quotes_text_witness :
  includes (Page.friendly hello) hello = true.
Proof.
  apply (preset_reply_quotes_text Page.s_friendly Page.friendly hello None t0).
  vm_compute. reflexivity.
Defined.

(** ** The bookmarklet *)

Lemma length_filter_le {A} (f : A -> bool) (l : list A) :
  (length (List.filter f l) <= length l)%nat.
Proof.
  induction l as [|x l IH]; cbn [List.filter length]; [lia|].
  destruct (f x); cbn [length]; lia.
Qed.

Lemma modal_overlays_step e s :
  (length (Modal.overlays s) <= 1)%nat ->
  (length (Modal.overlays (Modal.step e s)) <= 1)%nat.
Proof.
  intros Hs. destruct e as [|i v|i|i]; cbn [Modal.step].
  - unfold Modal.invoke. destruct (Modal.overlays s) eqn:E;
      rewrite ?E in *; cbn in *; lia.
  - cbn. rewrite length_map. exact Hs.
  - unfold Modal.submitClick. destruct (Modal.inDocument i s); [|exact Hs].
    cbv zeta. destruct (bool_decide _); cbn;
      etransitivity; [apply length_filter_le|exact Hs
                     |apply length_filter_le|exact Hs].
  - unfold Modal.cancelClick. destruct (Modal.inDocument i s); [|exact Hs].
    cbn. etransitivity; [apply length_filter_le|exact Hs].
Qed.

Lemma modal_overlays_run es :
  (length (Modal.overlays (Modal.run es Modal.initial)) <= 1)%nat.
Proof.
  assert (H0 : (length (Modal.overlays Modal.initial) <= 1)%nat)
    by (cbn; lia).
  generalize dependent Modal.initial.
  induction es as [|e es IH]; intros s0 H0; cbn [Modal.run]; [exact H0|].
  apply IH, modal_overlays_step, H0.
Qed.

(** X19. However often the bookmarklet is run and whatever is clicked,
    the page never holds more than one modal overlay; running the
    bookmarklet while an overlay is open changes nothing. *)
Theorem bookmarklet_single_overlay :
  forall es,
    let s := Modal.run es Modal.initial in
    (length (Modal.overlays s) <= 1)%nat
    /\ (if Modal.overlays s is [] then True else Modal.step Modal.Invoke s = s).
Proof.
  intros es. cbv zeta. split.
  - apply modal_overlays_run.
  - cbn [Modal.step]. unfold Modal.invoke.
    destruct (Modal.overlays (Modal.run es Modal.initial)); [exact I|].
    reflexivity.
Qed.

Lemma modal_alerts_step e s :
  Forall (fun a => exists v, a = Modal.alertPrefix ++ v
                             /\ v <> [] /\ trim v = v) (Modal.alerts s) ->
  Forall (fun a => exists v, a = Modal.alertPrefix ++ v
                             /\ v <> [] /\ trim v = v)
         (Modal.alerts (Modal.step e s)).
Proof.
  intros Hs. destruct e as [|i v|i|i]; cbn [Modal.step].
  - unfold Modal.invoke. destruct (Modal.overlays s); exact Hs.
  - exact Hs.
  - unfold Modal.submitClick. destruct (Modal.inDocument i s); [|exact Hs].
    cbv zeta. destruct (bool_decide _) eqn:E; cbn; [exact Hs|].
    apply bool_decide_eq_false_1 in E.
    apply Forall_app. split; [exact Hs|]. constructor; [|constructor].
    eexists. split; [reflexivity|]. split; [exact E|apply trim_idempotent].
  - unfold Modal.cancelClick. destruct (Modal.inDocument i s); exact Hs.
Qed.

(** X20. Every text the bookmarklet passes to [alert] is the fixed
    prefix followed by a non-empty, trimmed text: it never alerts for an
    empty or whitespace-only entry. *)
Theorem bookmarklet_alerts_are_trimmed :
  forall es,
    Forall (fun a => exists v, a = Modal.alertPrefix ++ v
                               /\ v <> [] /\ trim v = v)
           (Modal.alerts (Modal.run es Modal.initial)).
Proof.
  intros es.
  assert (H0 : Forall (fun a => exists v, a = Modal.alertPrefix ++ v
                                          /\ v <> [] /\ trim v = v)
                      (Modal.alerts Modal.initial)) by constructor.
  generalize dependent Modal.initial.
  induction es as [|e es IH]; intros s0 H0; cbn [Modal.run]; [exact H0|].
  apply IH, modal_alerts_step, H0.
Qed.

(** X21. With an overlay open, its submit button closes it and alerts
    the trimmed entry unless the entry is blank, its cancel button closes
    it without an alert, and in both cases the next run of the
    bookmarklet opens a new overlay with an empty text box. *)
Theorem bookmarklet_buttons_close :
  forall es o,
    let s := Modal.run es Modal.initial in
    head (Modal.overlays s) = Some o ->
    let submitted := Modal.step (Modal.SubmitClick (Modal.overlay_id o)) s in
    let cancelled := Modal.step (Modal.CancelClick (Modal.overlay_id o)) s in
    Modal.overlays submitted = []
    /\ Modal.alerts submitted
       = Modal.alerts s
           ++ (if forallb isWhiteSpace (Modal.userInputText o) then []
               else [Modal.alertPrefix ++ trim (Modal.userInputText o)])
    /\ Modal.overlays cancelled = []
    /\ Modal.alerts cancelled = Modal.alerts s
    /\ Modal.overlays (Modal.step Modal.Invoke submitted)
       = [Modal.mkOverlay (Modal.nextNode s) []]
    /\ Modal.overlays (Modal.step Modal.Invoke cancelled)
       = [Modal.mkOverlay (Modal.nextNode s) []].
Proof.
  intros es o s Ho. cbv zeta.
  pose proof (modal_overlays_run es) as Hlen. fold s in Hlen.
  destruct s as [ovs al nn]. cbn in Ho, Hlen.
  destruct ovs as [|o' [|o'' ovs]]; [discriminate| |cbn in Hlen; lia].
  injection Ho as ->.
  cbn [Modal.step]. unfold Modal.submitClick, Modal.cancelClick,
    Modal.inDocument, Modal.removeOverlay, Modal.invoke.
  cbn [Modal.overlays Modal.alerts Modal.nextNode existsb List.filter].
  rewrite Nat.eqb_refl. cbn [orb negb].
  destruct (forallb isWhiteSpace (Modal.userInputText o)) eqn:Ews.
  - apply trim_nil_iff in Ews. rewrite Ews. cbn.
    rewrite ?Nat.eqb_refl, ?app_nil_r. cbn. repeat split.
  - assert (Hne : trim (Modal.userInputText o) <> []).
    { intros H. apply trim_nil_iff in H. congruence. }
    rewrite (bool_decide_eq_false_2 _ Hne). cbn.
    rewrite ?Nat.eqb_refl. cbn. repeat split.
Qed.

Lemma bookmarklet_buttons_close_witness :
  Modal.alerts
    (Modal.step (Modal.SubmitClick 0)
       (Modal.run [Modal.Invoke; Modal.TextInput 0 [32; 104; 105; 32]]
          Modal.initial))
  = [Modal.alertPrefix ++ [104; 105]].
Proof.
  apply (bookmarklet_buttons_close
           [Modal.Invoke; Modal.TextInput 0 [32; 104; 105; 32]]
           (Modal.mkOverlay 0 [32; 104; 105; 32])).
  reflexivity.
Defined.
